(** * primefounders: the Express/Mongoose back end of [server.js]

    The development embeds the request handlers of [server.js] as functions
    on an explicit world (the three Mongoose collections, the mail outbox
    and the console), and proves the properties its specification states
    about them.

    What [server.js] itself writes is modelled here line by line.  What it
    calls in its libraries is kept behind two interfaces:
    - [Runtime]: the ECMAScript number type;
    - [Platform]: Mongoose's casts to ObjectId, Number and Date, bcryptjs's
      [hash]/[compare] and jsonwebtoken's [sign]/[verify].
    The behaviour of Mongoose that the handlers rely on is written out where
    it is used: schemas are strict, a String path casts scalars through
    [toString()], [required] turns down an absent or empty string, and a
    query by id rejects with a CastError when the id is no ObjectId.

    The document store is an in-memory collection that is always available;
    a field of a request body is a scalar JSON value (arrays and nested
    objects are outside the value type). *)

From Stdlib Require Import ZArith String Ascii.
From stdpp Require Import base option list sorting gmap strings pretty.

Local Open Scope string_scope.
Local Open Scope list_scope.

(** ** Values of the request body *)

(** ECMAScript numbers (IEEE doubles), kept abstract. *)
Class Runtime := {
  Number : Type;
  (** [!!n]: false for 0, -0 and NaN. *)
  Number_truthy : Number → bool;
  (** [String(n)]. *)
  Number_toString : Number → string;
}.

Section Values.
Context `{Runtime}.

Inductive jsval :=
| JUndefined
| JNull
| JBool (b : bool)
| JNum (n : Number)
| JStr (s : string).

(** [!!v] *)
Definition truthy (v : jsval) : bool :=
  match v with
  | JUndefined | JNull => false
  | JBool b => b
  | JNum n => Number_truthy n
  | JStr s => negb (String.eqb s "")
  end.

(** [`${v}`] *)
Definition toString (v : jsval) : string :=
  match v with
  | JUndefined => "undefined"
  | JNull => "null"
  | JBool true => "true"
  | JBool false => "false"
  | JNum n => Number_toString n
  | JStr s => s
  end.

(** [a || b] *)
Definition or_else (a b : jsval) : jsval := if truthy a then a else b.

(** Mongoose's cast of a value to the schema type [String]: [null] and
    [undefined] stay empty, every other scalar goes through [toString()]. *)
Definition castString (v : jsval) : option string :=
  match v with
  | JUndefined | JNull => None
  | _ => Some (toString v)
  end.

(** [const { k } = req.body]: an absent key reads as [undefined]. *)
Definition field (k : string) (b : gmap string jsval) : jsval :=
  default JUndefined (b !! k).
End Values.

(** ** Strings *)

Fixpoint skip (n : nat) (s : string) : string :=
  match n, s with
  | S n', String _ s' => skip n' s'
  | _, _ => s
  end.

(** [s.replace(pat, rep)] for a string pattern: the first occurrence only. *)
Fixpoint String_replace (pat rep s : string) : string :=
  if String.prefix pat s then rep +:+ skip (String.length pat) s
  else match s with
       | EmptyString => EmptyString
       | String c s' => String c (String_replace pat rep s')
       end.

(** ** Documents *)

(** An ObjectId in its 24-digit hexadecimal rendering. *)
Definition ObjectId := string.

(** Result of casting a value to a schema type. *)
Inductive cast (A : Type) :=
| CastError
| CastNull
| CastTo (a : A).
Arguments CastError {A}.
Arguments CastNull {A}.
Arguments CastTo {A} a.

(** The libraries [server.js] calls. *)
Class Platform `{Runtime} := {
  (** Mongoose's cast of a value other than [undefined] to ObjectId; [None]
      is a CastError. *)
  castObjectId : jsval → option ObjectId;
  (** Mongoose's casts of a value other than [undefined] to Number and to
      Date (milliseconds since the epoch). *)
  castNumber : jsval → cast Number;
  castDate : jsval → cast Z;
  (** Whether an update drops the keys whose value is [undefined] or writes
      them as [null] (Mongoose versions differ). *)
  omitUndefined : bool;
  (** Whether a filter drops the keys whose value is [undefined], and so
      matches every document, or sends them as [null] (driver settings
      differ). *)
  ignoreUndefined : bool;
  (** [bcrypt.hash(s, 10)] on a string, with the salt it draws, and
      [bcrypt.compare(s, hash)] on two strings. *)
  bcrypt_hash : string → string → string;
  bcrypt_compare : string → string → bool;
  (** [jwt.sign({ id }, JWT_SECRET, { expiresIn: '7d' })] at a time, and
      [jwt.verify(token, JWT_SECRET)] at a time: the [id] of the payload,
      [None] when it throws. *)
  jwt_sign : ObjectId → Z → string;
  jwt_verify : Z → string → option string;
}.

(** [find().sort({ k: -1 })]: the documents by descending key, documents
    with equal keys in their stored order.  [leb a b] reads "the key of [a]
    is at most the key of [b]". *)
Fixpoint insert_desc {A} (leb : A → A → bool) (x : A) (l : list A) : list A :=
  match l with
  | [] => [x]
  | y :: l' => if leb y x then x :: y :: l' else y :: insert_desc leb x l'
  end.

Definition sort_desc {A} (leb : A → A → bool) (l : list A) : list A :=
  foldr (insert_desc leb) [] l.

(** [x] may stand before [y] in a descending listing. *)
Definition before {A} (leb : A → A → bool) (x y : A) : Prop :=
  leb y x = true.

(** [findOneAndUpdate] on the first document that satisfies [p]. *)
Fixpoint update_first {A} (p : A → bool) (f : A → A) (l : list A)
  : option A * list A :=
  match l with
  | [] => (None, [])
  | x :: l' =>
      if p x then (Some (f x), f x :: l')
      else let '(r, l'') := update_first p f l' in (r, x :: l'')
  end.

(** [findOneAndDelete] on the first document that satisfies [p]. *)
Fixpoint delete_first {A} (p : A → bool) (l : list A) : list A :=
  match l with
  | [] => []
  | x :: l' => if p x then l' else x :: delete_first p l'
  end.

(** The [required] validator of a String path: present and not empty. *)
Definition required (v : option string) : option string :=
  match v with
  | Some s => if String.eqb s "" then None else Some s
  | None => None
  end.

Module Contact.
(** contactSchema *)
Record t := {
  _id : ObjectId;
  name : string;
  email : string;
  phone : option string;
  service : option string;
  message : option string;
  date : Z;
  status : option string;
}.

(** [new Contact({ name, email, phone, service, message })] as [save()]
    validates it: [name] and [email] are required, [date] and [status] take
    their defaults.  [None] is a ValidationError. *)
Definition create `{Runtime} (id : ObjectId) (now : Z)
    (name email phone service message : jsval) : option t :=
  n ← required (castString name);
  m ← required (castString email);
  Some {| _id := id; name := n; email := m;
          phone := castString phone; service := castString service;
          message := castString message;
          date := now; status := Some "new" |}.

Definition date_leb (a b : t) : bool := (date a <=? date b)%Z.

Definition newer_first (x y : t) : Prop := (date y ≤ date x)%Z.

(** [Contact.find().sort({ date: -1 })] *)
Definition find_sorted (l : list t) : list t := sort_desc date_leb l.

Definition has_id (oid : ObjectId) (c : t) : bool := String.eqb (_id c) oid.

(** The update [{ status }]. *)
Definition set_status `{Platform} (v : jsval) (c : t) : t :=
  let write s :=
    {| _id := _id c; name := name c; email := email c; phone := phone c;
       service := service c; message := message c; date := date c;
       status := s |} in
  match v with
  | JUndefined => if omitUndefined then c else write None
  | _ => write (castString v)
  end.

(** [Contact.findByIdAndUpdate(id, { status }, { new: true })]: [None] is
    the CastError of an [id] that is no ObjectId, otherwise the updated
    document ([null] when none has the id) and the collection. *)
Definition findByIdAndUpdate `{Platform} (id : string) (status : jsval)
    (l : list t) : option (option t * list t) :=
  oid ← castObjectId (JStr id);
  Some (update_first (has_id oid) (set_status status) l).

(** [Contact.findByIdAndDelete(id)] *)
Definition findByIdAndDelete `{Platform} (id : string) (l : list t)
  : option (list t) :=
  oid ← castObjectId (JStr id);
  Some (delete_first (has_id oid) l).
End Contact.

Module Client.
(** clientSchema *)
Record t `{Runtime} := {
  _id : ObjectId;
  name : option string;
  logo : option string;
  projectName : option string;
  category : option string;
  results : option string;
  testimonial : option string;
  clientRating : option Number;
  date : option Z;
}.




Definition cast_path {A} `{Runtime} (c : jsval → cast A) (v : jsval)
  : option (option A) :=
  match v with
  | JUndefined => Some None
  | _ => match c v with
         | CastError => None
         | CastNull => Some None
         | CastTo a => Some (Some a)
         end
  end.

(** The path [date: { type: Date, default: Date.now }]: the default fills
    in for [undefined] only. *)
Definition cast_date `{Platform} (now : Z) (v : jsval) : option (option Z) :=
  match v with
  | JUndefined => Some (Some now)
  | _ => cast_path castDate v
  end.

(** [new Client(req.body)] as [save()] validates it: each path of the schema
    is read from the body and cast, [_id] and [date] take their defaults when
    the body leaves them [undefined].  [None] is a ValidationError.  The
    [_id] of the body is followed for a value that casts to an ObjectId or
    raises a CastError; a body whose [_id] is [null] (kept [null] in the
    answer, with a generated id in the store) is outside this model. *)
Definition create `{Platform} (id : ObjectId) (now : Z)
    (body : gmap string jsval) : option t :=
  oid ← match field "_id" body with
        | JUndefined => Some id
        | v => castObjectId v
        end;
  rating ← cast_path castNumber (field "clientRating" body);
  d ← cast_date now (field "date" body);
  Some {| _id := oid;
          name := castString (field "name" body);
          logo := castString (field "logo" body);
          projectName := castString (field "projectName" body);
          category := castString (field "category" body);
          results := castString (field "results" body);
          testimonial := castString (field "testimonial" body);
          clientRating := rating;
          date := d |}.

(** Dates in the order the store sorts them: [null] below every date. *)
Definition date_leb `{Runtime} (a b : t) : bool :=
  match date a, date b with
  | None, _ => true
  | Some _, None => false
  | Some x, Some y => (x <=? y)%Z
  end.

(** [Client.find().sort({ date: -1 })] *)
Definition find_sorted `{Runtime} (l : list t) : list t :=
  sort_desc date_leb l.

(** [client.save()]: the insert fails on an [_id] the body chose and the
    collection already holds. *)
Definition save `{Runtime} (body : gmap string jsval) (c : t) (l : list t)
  : option (list t) :=
  match field "_id" body with
  | JUndefined => Some (l ++ [c])
  | _ => if existsb (λ x, String.eqb (_id x) (_id c)) l then None
         else Some (l ++ [c])
  end.
End Client.

Module Admin.
(** adminSchema *)
Record t := {
  _id : ObjectId;
  username : string;
  password : string;
}.

(** [Admin.findOne({ username })]: the filter is cast to the path's type; a
    [null] filter value matches no document, every stored [username] being a
    string. *)
Definition findOne `{Platform} (username : jsval) (l : list t) : option t :=
  match username with
  | JUndefined => if ignoreUndefined then head l else None
  | _ =>
      u ← castString username;
      find (λ a, String.eqb (Admin.username a) u) l
  end.

(** [Admin.findById(id)]: [None] is the CastError. *)
Definition findById `{Platform} (id : string) (l : list t)
  : option (option t) :=
  oid ← castObjectId (JStr id);
  Some (find (λ a, String.eqb (_id a) oid) l).

(** [new Admin({ username, password: hashedPassword })] as [save()]
    validates it: both paths are required. *)
Definition create `{Runtime} (id : ObjectId) (username : jsval)
    (hashedPassword : string) : option t :=
  u ← required (castString username);
  p ← required (Some hashedPassword);
  Some {| _id := id; username := u; password := p |}.
End Admin.

(** The notification the contact form sends: the five interpolations of its
    html template. *)
Record Mail := {
  mail_name : string;
  mail_email : string;
  mail_phone : string;
  mail_service : string;
  mail_message : string;
}.

(** ** The server *)

Section Server.
Context {rt : Runtime} {pf : Platform}.

Record World := {
  contacts : list Contact.t;
  clients : list Client.t;
  admins : list Admin.t;
  outbox : list Mail;
  console : list string;
}.

(** What a request draws from outside the program. *)
Record Env := {
  (** [Date.now()] *)
  now : Z;
  (** the ObjectId the driver generates for a new document *)
  new_ObjectId : ObjectId;
  (** the salt [bcrypt.hash] draws *)
  salt : string;
  (** whether [transporter.sendMail] resolves *)
  sendMail_ok : bool;
}.

Inductive Route :=
| POST_contact
| GET_contacts
| PUT_contact (id : string)
| DELETE_contact (id : string)
| GET_clients
| POST_clients
| POST_admin_register
| POST_admin_login.

Record Request := {
  route : Route;
  Authorization : option string;
  body : gmap string jsval;
}.

Inductive Data :=
| ContactList (l : list Contact.t)
| ContactDoc (c : option Contact.t)
| ClientList (l : list Client.t)
| ClientDoc (c : Client.t).

Inductive Json :=
| Msg (success : bool) (message : string)
| WithData (success : bool) (data : Data)
| WithToken (success : bool) (token : string) (message : string).

Record Response := {
  status : nat;
  json : Json;
}.

(** *** Effects: the world is threaded, [None] is a thrown exception *)

Definition Eff (A : Type) : Type := World → option A * World.

(** A handler always answers. *)
Definition Handler : Type := World → Response * World.

#[global] Instance Eff_ret : MRet Eff := λ A a w, (Some a, w).

#[global] Instance Eff_bind : MBind Eff := λ A B f m w,
  match m w with
  | (Some a, w') => f a w'
  | (None, w') => (None, w')
  end.

Definition throw {A} : Eff A := λ w, (None, w).

(** [await] of a query that may reject. *)
Definition await {A} (q : World → option A) : Eff A := λ w, (q w, w).

Definition modify (f : World → World) : Eff unit := λ w, (Some tt, f w).

(** [try { m } catch { h }] *)
Definition try_catch {A} (m h : Eff A) : Eff A := λ w,
  match m w with
  | (Some a, w') => (Some a, w')
  | (None, w') => h w'
  end.

(** [try { m } catch { h }] around a whole handler, [h] sending the answer. *)
Definition try_ (m : Eff Response) (h : Handler) : Handler := λ w,
  match m w with
  | (Some r, w') => (r, w')
  | (None, w') => h w'
  end.

Definition send (st : nat) (j : Json) : Handler := λ w,
  ({| status := st; json := j |}, w).

Definition set_contacts (l : list Contact.t) (w : World) : World :=
  {| contacts := l; clients := clients w; admins := admins w;
     outbox := outbox w; console := console w |}.

Definition set_clients (l : list Client.t) (w : World) : World :=
  {| contacts := contacts w; clients := l; admins := admins w;
     outbox := outbox w; console := console w |}.

Definition set_admins (l : list Admin.t) (w : World) : World :=
  {| contacts := contacts w; clients := clients w; admins := l;
     outbox := outbox w; console := console w |}.

Definition deliver (m : Mail) (w : World) : World :=
  {| contacts := contacts w; clients := clients w; admins := admins w;
     outbox := outbox w ++ [m]; console := console w |}.

(** [console.log] and [console.error] *)
Definition console_log (s : string) : Eff unit :=
  modify (λ w,
    {| contacts := contacts w; clients := clients w; admins := admins w;
       outbox := outbox w; console := console w ++ [s] |}).

(** *** Auth middleware *)

Definition Unauthenticated : Response :=
  {| status := 401; json := Msg false "Please authenticate" |}.

(** [req.header('Authorization')?.replace('Bearer ', '')] *)
Definition bearer (r : Request) : jsval :=
  match Authorization r with
  | Some h => JStr (String_replace "Bearer " "" h)
  | None => JUndefined
  end.

(** The [try] block of [auth], up to [req.admin = admin]. *)
Definition authenticate (e : Env) (r : Request) : Eff Admin.t :=
  let token := bearer r in
  if negb (truthy token) then throw
  else
    decoded ← await (λ _, jwt_verify (now e) (toString token));
    admin ← await (λ w, Admin.findById decoded (admins w));
    match admin with
    | None => throw
    | Some a => mret a
    end.

Definition auth (e : Env) (r : Request) (next : Admin.t → Handler)
  : Handler := λ w,
  match authenticate e r w with
  | (Some admin, w') => next admin w'
  | (None, w') => (Unauthenticated, w')
  end.

(** *** Contact form *)

Definition notification (name email phone service message : jsval) : Mail :=
  {| mail_name := toString name;
     mail_email := toString email;
     mail_phone := toString (or_else phone (JStr "Not provided"));
     mail_service := toString (or_else service (JStr "Not specified"));
     mail_message := toString message |}.

(** [await transporter.sendMail(...)] *)
Definition sendMail (e : Env) (m : Mail) : Eff unit :=
  if sendMail_ok e then modify (deliver m) else throw.

Definition post_contact (e : Env) (r : Request) : Handler :=
  let name := field "name" (body r) in
  let email := field "email" (body r) in
  let phone := field "phone" (body r) in
  let service := field "service" (body r) in
  let message := field "message" (body r) in
  try_
    (if negb (truthy name) || negb (truthy email) || negb (truthy message)
     then mret {| status := 400;
                  json := Msg false "Name, email and message are required" |}
     else
       contact ← await (λ _,
         Contact.create (new_ObjectId e) (now e)
           name email phone service message);
       modify (λ w, set_contacts (contacts w ++ [contact]) w);;
       try_catch
         (sendMail e (notification name email phone service message))
         (console_log "Email notification failed:");;
       mret {| status := 201;
               json := Msg true "Thank you! We will contact you soon." |})
    (λ w,
       match console_log "Contact form error:" w with
       | (_, w') => send 500 (Msg false "Server error. Please try again.") w'
       end).

Definition ServerError : Response :=
  {| status := 500; json := Msg false "Server error" |}.

Definition get_contacts : Handler :=
  try_
    (contacts ← await (λ w, Some (Contact.find_sorted (contacts w)));
     mret {| status := 200; json := WithData true (ContactList contacts) |})
    (send 500 (Msg false "Server error")).

Definition put_contact (id : string) (r : Request) : Handler :=
  let status := field "status" (body r) in
  try_
    (found ← await (λ w, Contact.findByIdAndUpdate id status (contacts w));
     modify (set_contacts found.2);;
     mret {| status := 200; json := WithData true (ContactDoc found.1) |})
    (send 500 (Msg false "Server error")).

Definition delete_contact (id : string) : Handler :=
  try_
    (rest ← await (λ w, Contact.findByIdAndDelete id (contacts w));
     modify (set_contacts rest);;
     mret {| status := 200; json := Msg true "Contact deleted" |})
    (send 500 (Msg false "Server error")).

(** *** Portfolio *)

Definition get_clients : Handler :=
  try_
    (clients ← await (λ w, Some (Client.find_sorted (clients w)));
     mret {| status := 200; json := WithData true (ClientList clients) |})
    (send 500 (Msg false "Server error")).

Definition post_clients (e : Env) (r : Request) : Handler :=
  try_
    (client ← await (λ _, Client.create (new_ObjectId e) (now e) (body r));
     saved ← await (λ w, Client.save (body r) client (clients w));
     modify (set_clients saved);;
     mret {| status := 201; json := WithData true (ClientDoc client) |})
    (send 500 (Msg false "Server error")).

(** *** Admin accounts *)

(** [await bcrypt.hash(password, 10)]: rejects unless [password] is a
    string. *)
Definition hash (e : Env) (password : jsval) : Eff string :=
  match password with
  | JStr s => mret (bcrypt_hash s (salt e))
  | _ => throw
  end.

(** [await bcrypt.compare(password, hash)]: rejects unless [password] is a
    string. *)
Definition compare (password : jsval) (hash : string) : Eff bool :=
  match password with
  | JStr s => mret (bcrypt_compare s hash)
  | _ => throw
  end.

Definition register (e : Env) (r : Request) : Handler :=
  let username := field "username" (body r) in
  let password := field "password" (body r) in
  try_
    (existingAdmin ← await (λ w, Some (Admin.findOne username (admins w)));
     match existingAdmin with
     | Some _ =>
         mret {| status := 400; json := Msg false "Admin already exists" |}
     | None =>
         hashedPassword ← hash e password;
         admin ← await (λ _,
           Admin.create (new_ObjectId e) username hashedPassword);
         modify (λ w, set_admins (admins w ++ [admin]) w);;
         mret {| status := 201;
                 json := Msg true "Admin created successfully" |}
     end)
    (send 500 (Msg false "Server error")).

Definition InvalidCredentials : Response :=
  {| status := 401; json := Msg false "Invalid credentials" |}.

Definition login (e : Env) (r : Request) : Handler :=
  let username := field "username" (body r) in
  let password := field "password" (body r) in
  try_
    (admin ← await (λ w, Some (Admin.findOne username (admins w)));
     match admin with
     | None => mret InvalidCredentials
     | Some admin =>
         isMatch ← compare password (Admin.password admin);
         if negb isMatch then mret InvalidCredentials
         else
           let token := jwt_sign (Admin._id admin) (now e) in
           mret {| status := 200;
                   json := WithToken true token "Login successful" |}
     end)
    (send 500 (Msg false "Server error")).

(** *** Routing *)

Definition handle (e : Env) (r : Request) : Handler :=
  match route r with
  | POST_contact => post_contact e r
  | GET_contacts => auth e r (λ _, get_contacts)
  | PUT_contact id => auth e r (λ _, put_contact id r)
  | DELETE_contact id => auth e r (λ _, delete_contact id)
  | GET_clients => get_clients
  | POST_clients => auth e r (λ _, post_clients e r)
  | POST_admin_register => register e r
  | POST_admin_login => login e r
  end.

(** The same request with the other fate for its notification. *)
Definition with_sendMail (ok : bool) (e : Env) : Env :=
  {| now := now e; new_ObjectId := new_ObjectId e; salt := salt e;
     sendMail_ok := ok |}.

(** The routes registered behind the [auth] middleware. *)
Definition gated (rt : Route) : bool :=
  match rt with
  | GET_contacts | PUT_contact _ | DELETE_contact _ | POST_clients => true
  | _ => false
  end.

(** The three causes for which [auth] turns a request down. *)
Inductive AuthFailure (e : Env) (r : Request) (w : World) : Prop :=
| no_token :
    bearer r = JUndefined ∨ bearer r = JStr "" → AuthFailure e r w
| bad_token token :
    bearer r = JStr token → jwt_verify (now e) token = None →
    AuthFailure e r w
| deleted_admin token id :
    bearer r = JStr token → jwt_verify (now e) token = Some id →
    (∀ a, a ∈ admins w → castObjectId (JStr id) ≠ Some (Admin._id a)) →
    AuthFailure e r w.

(** The [success] flag of an answer. *)
Definition succeeded (resp : Response) : bool :=
  match json resp with
  | Msg ok _ | WithData ok _ | WithToken ok _ _ => ok
  end.

(** Two accounts that differ at most in the stored password, and two worlds
    that differ at most in the stored passwords of their accounts. *)
Definition same_account (a b : Admin.t) : Prop :=
  Admin._id a = Admin._id b ∧ Admin.username a = Admin.username b.

Definition hash_variant (w w' : World) : Prop :=
  contacts w = contacts w'
  ∧ clients w = clients w'
  ∧ Forall2 same_account (admins w) (admins w').

Definition empty_world : World :=
  {| contacts := []; clients := []; admins := []; outbox := [];
     console := [] |}.

(** A sequence of requests, one after the other: the answers and the world
    they leave. *)
Fixpoint serve (requests : list (Env * Request)) (w : World)
  : list Response * World :=
  match requests with
  | [] => ([], w)
  | (e, r) :: rest =>
      let '(resp, w') := handle e r w in
      let '(resps, w'') := serve rest w' in
      (resp :: resps, w'')
  end.

(** The worlds the server can be in: those its handlers produce from the
    empty store. *)
Inductive reachable : World → Prop :=
| reachable_empty : reachable empty_world
| reachable_handle w e r :
    reachable w → reachable (handle e r w).2.

End Server.

(** ** A stand-in platform

    A small platform on which the handlers compute: integers for numbers,
    24 hexadecimal digits for an ObjectId, and transparent stand-ins for the
    hash and the token.  It serves the closed examples below. *)

Module Reference.

Definition runtime : Runtime := {|
  Number := Z;
  Number_truthy := λ n, negb (n =? 0)%Z;
  Number_toString := λ n, pretty n;
|}.

Definition is_hex (c : ascii) : bool :=
  let n := nat_of_ascii c in
  ((48 <=? n)%nat && (n <=? 57)%nat) || ((97 <=? n)%nat && (n <=? 102)%nat)
  || ((65 <=? n)%nat && (n <=? 70)%nat).

Definition lower_hex (c : ascii) : ascii :=
  let n := nat_of_ascii c in
  if (65 <=? n)%nat && (n <=? 70)%nat then ascii_of_nat (n + 32) else c.

Fixpoint all_hex (s : string) : bool :=
  match s with
  | EmptyString => true
  | String c s' => is_hex c && all_hex s'
  end.

Fixpoint lower (s : string) : string :=
  match s with
  | EmptyString => EmptyString
  | String c s' => String (lower_hex c) (lower s')
  end.

Definition objectId (v : @jsval runtime) : option ObjectId :=
  match v with
  | JStr s =>
      if (String.length s =? 24)%nat && all_hex s then Some (lower s) else None
  | _ => None
  end.

Definition number (v : @jsval runtime) : cast Z :=
  match v with
  | JNull => CastNull
  | JBool b => CastTo (if b then 1 else 0)%Z
  | JNum n => CastTo n
  | JStr EmptyString => CastNull
  | _ => CastError
  end.

Definition date (v : @jsval runtime) : cast Z :=
  match v with
  | JNull => CastNull
  | JNum n => CastTo n
  | JStr EmptyString => CastNull
  | _ => CastError
  end.

Definition hash (s salt : string) : string := "$" +:+ salt +:+ "$" +:+ s.

Definition compare (s h : string) : bool :=
  match h with
  | String _ h' => String.eqb (skip 23 h') s
  | EmptyString => false
  end.

Definition sign (id : ObjectId) (now : Z) : string := "jwt." +:+ id.

Definition verify (now : Z) (token : string) : option string :=
  if String.prefix "jwt." token then Some (skip 4 token) else None.

Definition platform : @Platform runtime := {|
  castObjectId := objectId;
  castNumber := number;
  castDate := date;
  omitUndefined := true;
  ignoreUndefined := false;
  bcrypt_hash := hash;
  bcrypt_compare := compare;
  jwt_sign := sign;
  jwt_verify := verify;
|}.

Definition root_id : ObjectId := "0123456789abcdef01234567".

Definition root_salt : string := "abcdefghijklmnopqrstuv".

(** The stored form of the account [root] with password [secret]. *)
Definition root : Admin.t :=
  {| Admin._id := root_id; Admin.username := "root";
     Admin.password := hash "secret" root_salt |}.

(** The world after [root] registered on an empty store. *)
Definition world : @World runtime :=
  {| contacts := []; clients := []; admins := [root]; outbox := [];
     console := [] |}.

(** The environment of that first registration, and the one of the requests
    that follow. *)
Definition boot : Env :=
  {| now := 1700000000000; new_ObjectId := root_id;
     salt := root_salt; sendMail_ok := true |}.

Definition env : Env :=
  {| now := 1700000001000; new_ObjectId := "65a000000000000000000001";
     salt := "ABCDEFGHIJKLMNOPQRSTUV"; sendMail_ok := true |}.

Definition root_token : string := "Bearer jwt.0123456789abcdef01234567".

Definition request (rt : Route) (header : option string)
    (fields : list (string * @jsval runtime)) : @Request runtime :=
  {| route := rt; Authorization := header; body := list_to_map fields |}.

Definition credentials (u p : string) : list (string * @jsval runtime) :=
  [("username", JStr u); ("password", JStr p)].

Definition register_root : @Request runtime :=
  request POST_admin_register None (credentials "root" "secret").

Definition register_alice : @Request runtime :=
  request POST_admin_register None (credentials "alice" "wonderland").

(** A registration under the name of [root] that brings no password. *)
Definition register_root_no_password : @Request runtime :=
  request POST_admin_register None [("username", JStr "root")].

Definition login_root : @Request runtime :=
  request POST_admin_login None (credentials "root" "secret").

Definition list_anonymous : @Request runtime :=
  request GET_contacts None [].

Definition list_contacts : @Request runtime :=
  request GET_contacts (Some root_token) [].

Definition submit : @Request runtime :=
  request POST_contact None
    [("name", JStr "X"); ("email", JStr "x@x.com"); ("message", JStr "hi")].

Definition submit_no_name : @Request runtime :=
  request POST_contact None
    [("email", JStr "x@x.com"); ("message", JStr "hi")].

Definition inquiry (id : ObjectId) (d : Z) : Contact.t :=
  {| Contact._id := id; Contact.name := "X"; Contact.email := "x@x.com";
     Contact.phone := None; Contact.service := None;
     Contact.message := Some "hi"; Contact.date := d;
     Contact.status := Some "new" |}.

(** A store that holds an older inquiry before a newer one. *)
Definition inbox : @World runtime :=
  {| contacts := [inquiry "65a000000000000000000001" 1700000000100;
                  inquiry "65a000000000000000000002" 1700000000200];
     clients := []; admins := [root]; outbox := []; console := [] |}.

Definition register_bob_no_password : @Request runtime :=
  request POST_admin_register None [("username", JStr "bob")].

(** An id that no inquiry has, well formed and not. *)
Definition absent_id : string := "65a0000000000000000000ff".

Definition delete_absent : @Request runtime :=
  request (DELETE_contact absent_id) (Some root_token) [].

Definition update_absent : @Request runtime :=
  request (PUT_contact absent_id) (Some root_token)
    [("status", JStr "contacted")].

Definition delete_abc : @Request runtime :=
  request (DELETE_contact "abc") (Some root_token) [].

Definition five : @Number runtime := 5%Z.



(** Further requests and worlds. *)




Definition entry (id : ObjectId) (d : option Z) : @Client.t runtime :=
  {| Client._id := id; Client.name := Some "Acme"; Client.logo := None;
     Client.projectName := None; Client.category := None;
     Client.results := None; Client.testimonial := None;
     Client.clientRating := Some five; Client.date := d |}.

(** A portfolio with an undated entry between two dated ones. *)
Definition portfolio : @World runtime :=
  {| contacts := [];
     clients := [entry "65b000000000000000000001" (Some 1700000000100%Z);
                 entry "65b000000000000000000002" None;
                 entry "65b000000000000000000003" (Some 1700000000200%Z)];
     admins := [root]; outbox := []; console := [] |}.

Definition list_clients : @Request runtime :=
  request GET_clients None [].

Definition create_client_bad_rating : @Request runtime :=
  request POST_clients (Some root_token)
    [("name", JStr "Acme"); ("clientRating", JStr "high")].

Definition login_root_no_password : @Request runtime :=
  request POST_admin_login None [("username", JStr "root")].

Definition login_bob_no_password : @Request runtime :=
  request POST_admin_login None [("username", JStr "bob")].

Definition register_nameless : @Request runtime :=
  request POST_admin_register None (credentials "" "secret").



Definition login_alice : @Request runtime :=
  request POST_admin_login None (credentials "alice" "wonderland").

Definition list_as_alice : @Request runtime :=
  request GET_contacts (Some "Bearer jwt.65a000000000000000000001") [].

(** The listing request with the bare token for header. *)
Definition list_contacts_bare : @Request runtime :=
  request GET_contacts (Some "jwt.0123456789abcdef01234567") [].

Definition later : Env :=
  {| now := 1700000002000; new_ObjectId := "65a000000000000000000002";
     salt := "abcdefghijklmnopqrstuv"; sendMail_ok := false |}.

End Reference.

(** ** Properties *)

Section Properties.
Context {rt : Runtime} {pf : Platform}.

Ltac run :=
  unfold try_, try_catch, await, modify, throw, send, console_log;
  unfold mbind, Eff_bind, mret, Eff_ret; simpl.

(** *** Lists of documents *)

Lemma find_none_iff {A} (p : A → bool) (l : list A) :
  find p l = None ↔ ∀ x, x ∈ l → p x = false.
Proof.
  induction l as [|y l IH]; simpl.
  - split; [intros _ x Hx; inversion Hx | done].
  - destruct (p y) eqn:Hy.
    + split; [done|]. intros Hall. rewrite Hall in Hy; [done|]. left.
    + rewrite IH. split.
      * intros Hall x Hx. apply elem_of_cons in Hx as [->|Hx]; auto.
      * intros Hall x Hx. apply Hall. by right.
Qed.

Lemma find_some_elem {A} (p : A → bool) (l : list A) x :
  find p l = Some x → x ∈ l ∧ p x = true.
Proof.
  induction l as [|y l IH]; simpl; [done|].
  destruct (p y) eqn:Hy.
  - intros [= ->]. split; [left | done].
  - intros Hf. destruct (IH Hf) as [? ?]. split; [by right | done].
Qed.

Lemma string_eqb_false (a b : string) : a ≠ b → String.eqb a b = false.
Proof. intros Hne. by apply String.eqb_neq. Qed.

(** *** The auth middleware *)

Lemma findById_unknown id (l : list Admin.t) :
  (∀ a, a ∈ l → castObjectId (JStr id) ≠ Some (Admin._id a)) →
  Admin.findById id l = None ∨ Admin.findById id l = Some None.
Proof.
  intros Hno. unfold Admin.findById.
  destruct (castObjectId (JStr id)) as [oid|] eqn:Hcast; simpl; [|by left].
  right. f_equal. apply find_none_iff. intros a Ha.
  apply string_eqb_false. intros Heq. apply (Hno a Ha). by rewrite Heq.
Qed.

Lemma authenticate_failure e r w :
  AuthFailure e r w → authenticate e r w = (None, w).
Proof.
  intros Hfail. unfold authenticate.
  destruct Hfail as [[Hb|Hb]|token Hb Hver|token id Hb Hver Hno];
    rewrite Hb; simpl; try reflexivity.
  - destruct (negb (String.eqb token "")); [|reflexivity].
    run. by rewrite Hver.
  - destruct (negb (String.eqb token "")); [|reflexivity].
    run. rewrite Hver.
    by destruct (findById_unknown id (admins w) Hno) as [-> | ->].
Qed.

(** C1: on every route behind the auth guard, each of the guard's three
    failure causes (no bearer token in the Authorization header, a token
    that fails verification, a verified token whose admin id matches no
    stored account) is answered with the same response, HTTP 401 with
    [{ success: false, message: "Please authenticate" }], and the world is
    left as it was. *)
Theorem auth_failure_uniform e r w :
  gated (route r) = true →
  AuthFailure e r w →
  handle e r w =
    ({| status := 401; json := Msg false "Please authenticate" |}, w).
Proof.
  intros Hgated Hfail. apply authenticate_failure in Hfail.
  unfold handle, auth.
  destruct (route r); try discriminate Hgated; by rewrite Hfail.
Qed.

(** *** The contact form *)

Lemma truthy_nonempty s : s ≠ "" → truthy (JStr s) = true.
Proof. intros Hs. simpl. by rewrite (string_eqb_false s ""). Qed.

Lemma falsy_absent_or_empty v : v = JUndefined ∨ v = JStr "" → truthy v = false.
Proof. by intros [-> | ->]. Qed.

(** What [post_contact] does with three non-empty strings, whatever becomes
    of the notification. *)
Lemma post_contact_valid e r w n m t :
  field "name" (body r) = JStr n → n ≠ "" →
  field "email" (body r) = JStr m → m ≠ "" →
  field "message" (body r) = JStr t → t ≠ "" →
  ∃ w',
    post_contact e r w =
      ({| status := 201;
          json := Msg true "Thank you! We will contact you soon." |}, w')
    ∧ contacts w' = contacts w ++
        [{| Contact._id := new_ObjectId e;
            Contact.name := n;
            Contact.email := m;
            Contact.phone := castString (field "phone" (body r));
            Contact.service := castString (field "service" (body r));
            Contact.message := Some t;
            Contact.date := now e;
            Contact.status := Some "new" |}]
    ∧ clients w' = clients w
    ∧ admins w' = admins w
    ∧ outbox w' = outbox w ++
        (if sendMail_ok e
         then [notification (JStr n) (JStr m) (field "phone" (body r))
                 (field "service" (body r)) (JStr t)]
         else []).
Proof.
  intros Hn Hn' Hm Hm' Ht Ht'. unfold post_contact.
  rewrite Hn, Hm, Ht, !truthy_nonempty by done. simpl.
  unfold Contact.create. simpl.
  rewrite (string_eqb_false n ""), (string_eqb_false m "") by done.
  unfold sendMail. run.
  destruct (sendMail_ok e); run; eexists; repeat split; simpl; try done.
  by rewrite app_nil_r.
Qed.

Lemma post_contact_invalid e r w :
  truthy (field "name" (body r)) = false
  ∨ truthy (field "email" (body r)) = false
  ∨ truthy (field "message" (body r)) = false →
  post_contact e r w =
    ({| status := 400;
        json := Msg false "Name, email and message are required" |}, w).
Proof.
  intros Hmissing. unfold post_contact.
  destruct Hmissing as [-> | [-> | ->]]; simpl;
    rewrite ?orb_true_r; simpl; run; try reflexivity.
Qed.

(** C3: a contact submission whose name, email and message are all present
    and non-empty persists a new Inquiry with status "new" and the server's
    clock as its timestamp and is answered HTTP 201; a submission in which
    name, email or message is absent or empty is answered HTTP 400 and
    leaves the world unchanged. *)
Theorem contact_submission e r w :
  route r = POST_contact →
  (∀ n m t,
     field "name" (body r) = JStr n → n ≠ "" →
     field "email" (body r) = JStr m → m ≠ "" →
     field "message" (body r) = JStr t → t ≠ "" →
     ∃ w',
       handle e r w =
         ({| status := 201;
             json := Msg true "Thank you! We will contact you soon." |}, w')
       ∧ contacts w' = contacts w ++
           [{| Contact._id := new_ObjectId e;
               Contact.name := n;
               Contact.email := m;
               Contact.phone := castString (field "phone" (body r));
               Contact.service := castString (field "service" (body r));
               Contact.message := Some t;
               Contact.date := now e;
               Contact.status := Some "new" |}]
       ∧ clients w' = clients w
       ∧ admins w' = admins w)
  ∧ (∀ k,
       k ∈ ["name"; "email"; "message"] →
       field k (body r) = JUndefined ∨ field k (body r) = JStr "" →
       handle e r w =
         ({| status := 400;
             json := Msg false "Name, email and message are required" |}, w)).
Proof.
  intros Hroute. unfold handle. rewrite Hroute. split.
  - intros n m t Hn Hn' Hm Hm' Ht Ht'.
    destruct (post_contact_valid e r w n m t) as (w' & ? & ? & ? & ? & ?);
      try done.
    by exists w'.
  - intros k Hk Hv. apply falsy_absent_or_empty in Hv.
    apply post_contact_invalid.
    repeat (apply elem_of_cons in Hk as [-> | Hk]); auto.
    by apply elem_of_nil in Hk.
Qed.

(** C5: for a valid contact submission the answer is the HTTP 201 success
    body whether the notification is delivered or its dispatch fails, and
    the persisted Inquiry (the whole store) is the same in both cases. *)
Theorem notification_failure_swallowed e r w n m t :
  route r = POST_contact →
  field "name" (body r) = JStr n → n ≠ "" →
  field "email" (body r) = JStr m → m ≠ "" →
  field "message" (body r) = JStr t → t ≠ "" →
  let delivered := handle (with_sendMail true e) r w in
  let failed := handle (with_sendMail false e) r w in
  failed.1 = delivered.1
  ∧ failed.1 = {| status := 201;
                  json := Msg true "Thank you! We will contact you soon." |}
  ∧ contacts failed.2 = contacts delivered.2
  ∧ clients failed.2 = clients delivered.2
  ∧ admins failed.2 = admins delivered.2
  ∧ length (contacts failed.2) = S (length (contacts w)).
Proof.
  intros Hroute Hn Hn' Hm Hm' Ht Ht'. unfold handle. rewrite Hroute.
  destruct (post_contact_valid (with_sendMail true e) r w n m t)
    as (w1 & E1 & C1 & L1 & A1 & _); try done.
  destruct (post_contact_valid (with_sendMail false e) r w n m t)
    as (w2 & E2 & C2 & L2 & A2 & _); try done.
  simpl. rewrite E1, E2. simpl.
  rewrite C1, C2, L1, L2, A1, A2. simpl.
  repeat split. rewrite length_app. simpl. lia.
Qed.

(** *** Admin accounts *)

Lemma findOne_cast v u (l : list Admin.t) :
  castString v = Some u →
  Admin.findOne v l = find (λ a, String.eqb (Admin.username a) u) l.
Proof. intros Hcast. unfold Admin.findOne. by destruct v; simplify_eq/=. Qed.

Lemma findOne_unknown u (l : list Admin.t) :
  (∀ a, a ∈ l → Admin.username a ≠ u) → Admin.findOne (JStr u) l = None.
Proof.
  intros Hno. rewrite (findOne_cast _ u) by done.
  apply find_none_iff. intros a Ha. apply string_eqb_false. by apply Hno.
Qed.


Lemma register_conflict e r w :
  is_Some (Admin.findOne (field "username" (body r)) (admins w)) →
  register e r w =
    ({| status := 400; json := Msg false "Admin already exists" |}, w).
Proof. intros [a Ha]. unfold register. run. by rewrite Ha. Qed.

Lemma register_fresh e r w u p :
  field "username" (body r) = JStr u → u ≠ "" →
  field "password" (body r) = JStr p →
  bcrypt_hash p (salt e) ≠ "" →
  Admin.findOne (field "username" (body r)) (admins w) = None →
  register e r w =
    ({| status := 201; json := Msg true "Admin created successfully" |},
     set_admins
       (admins w ++
          [{| Admin._id := new_ObjectId e;
              Admin.username := u;
              Admin.password := bcrypt_hash p (salt e) |}]) w).
Proof.
  intros Hu Hu' Hp Hh Hnone. unfold register. run.
  rewrite Hnone, Hp. simpl. unfold Admin.create. rewrite Hu. simpl.
  by rewrite (string_eqb_false u ""), (string_eqb_false _ "" Hh).
Qed.

Lemma register_no_password e r w :
  (∀ s, field "password" (body r) ≠ JStr s) →
  Admin.findOne (field "username" (body r)) (admins w) = None →
  register e r w = (ServerError, w).
Proof.
  intros Hp Hnone. unfold register. run. rewrite Hnone.
  destruct (field "password" (body r)); try reflexivity.
  by destruct (Hp s).
Qed.


(** The handlers other than [register] leave the accounts alone. *)
Lemma authenticate_world e r w : (authenticate e r w).2 = w.
Proof.
  unfold authenticate. destruct (negb (truthy (bearer r))); [done|]. run.
  destruct (jwt_verify _ _); [|done].
  destruct (Admin.findById _ _) as [[a|]|]; done.
Qed.

Lemma auth_cases e r next w :
  (authenticate e r w = (None, w) ∧ auth e r next w = (Unauthenticated, w))
  ∨ ∃ a, authenticate e r w = (Some a, w) ∧ auth e r next w = next a w.
Proof.
  unfold auth. pose proof (authenticate_world e r w) as Hw.
  destruct (authenticate e r w) as [[a|] w']; simpl in Hw; subst w'.
  - right. by exists a.
  - by left.
Qed.

Lemma auth_admins e r next w :
  (∀ a w', admins (next a w').2 = admins w') →
  admins (auth e r next w).2 = admins w.
Proof.
  intros Hnext.
  destruct (auth_cases e r next w) as [[_ ->] | (a & _ & ->)]; [done|].
  apply Hnext.
Qed.

Lemma post_contact_admins e r w : admins (post_contact e r w).2 = admins w.
Proof.
  unfold post_contact.
  destruct (_ || _); run; [done|].
  destruct (Contact.create _ _ _ _ _ _ _); [|done].
  unfold sendMail. destruct (sendMail_ok e); run; done.
Qed.

Lemma get_contacts_admins w : admins (get_contacts w).2 = admins w.
Proof. done. Qed.

Lemma put_contact_admins id r w : admins (put_contact id r w).2 = admins w.
Proof.
  unfold put_contact. run. by destruct (Contact.findByIdAndUpdate _ _ _).
Qed.

Lemma delete_contact_admins id w : admins (delete_contact id w).2 = admins w.
Proof.
  unfold delete_contact. run. by destruct (Contact.findByIdAndDelete _ _).
Qed.

Lemma get_clients_admins w : admins (get_clients w).2 = admins w.
Proof. done. Qed.

Lemma post_clients_admins e r w : admins (post_clients e r w).2 = admins w.
Proof.
  unfold post_clients. run. destruct (Client.create _ _ _); [|done].
  by destruct (Client.save _ _ _).
Qed.

Lemma login_admins e r w : admins (login e r w).2 = admins w.
Proof.
  unfold login, compare. run. destruct (Admin.findOne _ _); [|done].
  destruct (field "password" (body r)); try done. simpl.
  by destruct (negb _).
Qed.

(** How a request changes the accounts: not at all, or by the one account
    [register] appends for a username that none of them bears. *)
Lemma handle_admins e r w :
  admins (handle e r w).2 = admins w
  ∨ ∃ u p,
      castString (field "username" (body r)) = Some u
      ∧ field "password" (body r) = JStr p
      ∧ Admin.findOne (field "username" (body r)) (admins w) = None
      ∧ admins (handle e r w).2 =
          admins w ++
            [{| Admin._id := new_ObjectId e;
                Admin.username := u;
                Admin.password := bcrypt_hash p (salt e) |}].
Proof.
  unfold handle. destruct (route r).
  - left. apply post_contact_admins.
  - left. apply auth_admins. intros _ w'. apply get_contacts_admins.
  - left. apply auth_admins. intros _ w'. apply put_contact_admins.
  - left. apply auth_admins. intros _ w'. apply delete_contact_admins.
  - left. apply get_clients_admins.
  - left. apply auth_admins. intros _ w'. apply post_clients_admins.
  - unfold register, hash. run.
    destruct (Admin.findOne _ _) eqn:Hfind; [by left|].
    destruct (field "password" (body r)) eqn:Hp; try by left.
    simpl. unfold Admin.create.
    destruct (castString (field "username" (body r))) as [u|] eqn:Hu;
      simpl; [|by left].
    destruct (String.eqb u ""); simpl; [by left|].
    destruct (String.eqb (bcrypt_hash s (salt e)) ""); simpl; [by left|].
    right. by exists u, s.
  - left. apply login_admins.
Qed.



(** C10 (as amended): a registration whose password is absent or not a
    string persists no account; there is no input-presence check, so when
    the lookup by its username finds no stored account (as for a username
    that none of them bears) the hashing step rejects and the answer is the
    generic HTTP 500, and when the lookup finds a stored account the answer
    is the HTTP 400 of the conflict. *)
Theorem register_without_password e r w :
  route r = POST_admin_register →
  (∀ s, field "password" (body r) ≠ JStr s) →
  (handle e r w).2 = w
  ∧ (Admin.findOne (field "username" (body r)) (admins w) = None →
     (handle e r w).1 = {| status := 500; json := Msg false "Server error" |})
  ∧ (∀ u,
       field "username" (body r) = JStr u →
       (∀ a, a ∈ admins w → Admin.username a ≠ u) →
       (handle e r w).1 = {| status := 500; json := Msg false "Server error" |})
  ∧ (is_Some (Admin.findOne (field "username" (body r)) (admins w)) →
     (handle e r w).1 =
       {| status := 400; json := Msg false "Admin already exists" |}).
Proof.
  intros Hroute Hp. unfold handle. rewrite Hroute.
  destruct (Admin.findOne (field "username" (body r)) (admins w)) as [a|]
    eqn:Hfind.
  - rewrite register_conflict by (rewrite Hfind; by eexists).
    repeat split; [done|]. intros u Hu Hno.
    by rewrite Hu, (findOne_unknown _ _ Hno) in Hfind.
  - rewrite register_no_password by done. repeat split.
    by intros [? [=]].
Qed.

(** *** Sorted listings *)

Section sort_desc.
Context {A : Type} (leb : A → A → bool).
Hypothesis leb_total : ∀ x y, leb x y = true ∨ leb y x = true.

Lemma insert_desc_perm x l : insert_desc leb x l ≡ₚ x :: l.
Proof.
  induction l as [|y l IH]; simpl; [done|].
  destruct (leb y x); [done|]. rewrite IH. apply Permutation_swap.
Qed.

Lemma sort_desc_perm l : sort_desc leb l ≡ₚ l.
Proof.
  induction l as [|x l IH]; simpl; [done|].
  by rewrite insert_desc_perm, IH.
Qed.

Lemma insert_desc_hd x y l :
  before leb y x → HdRel (before leb) y l →
  HdRel (before leb) y (insert_desc leb x l).
Proof.
  intros Hyx Hl. destruct l as [|z l]; simpl; [by constructor|].
  destruct (leb z x); constructor; [done|]. by inversion Hl.
Qed.

Lemma insert_desc_sorted x l :
  Sorted (before leb) l → Sorted (before leb) (insert_desc leb x l).
Proof.
  induction 1 as [|y l Hl IH Hhd]; simpl.
  - by repeat constructor.
  - destruct (leb y x) eqn:Hyx.
    + constructor; [by constructor|]. by constructor.
    + constructor; [done|]. apply insert_desc_hd; [|done].
      unfold before. destruct (leb_total x y); congruence.
Qed.

Lemma sort_desc_sorted l : Sorted (before leb) (sort_desc leb l).
Proof.
  induction l as [|x l IH]; simpl; [constructor|].
  by apply insert_desc_sorted.
Qed.
End sort_desc.

Lemma find_sorted_perm (l : list Contact.t) : Contact.find_sorted l ≡ₚ l.
Proof. apply sort_desc_perm. Qed.

Lemma Sorted_weaken {A} (R R' : relation A) l :
  (∀ x y, R x y → R' x y) → Sorted R l → Sorted R' l.
Proof.
  intros HR. induction 1 as [|x l _ IH Hhd]; constructor; [done|].
  destruct Hhd; constructor; auto.
Qed.

Lemma find_sorted_sorted (l : list Contact.t) :
  StronglySorted Contact.newer_first (Contact.find_sorted l).
Proof.
  apply Sorted.Sorted_StronglySorted.
  - intros x y z. unfold Contact.newer_first. lia.
  - apply (Sorted_weaken (before Contact.date_leb)).
    + intros x y Hxy. by apply Z.leb_le in Hxy.
    + apply sort_desc_sorted. intros x y. unfold Contact.date_leb.
      destruct (Z.le_ge_cases (Contact.date x) (Contact.date y));
        [left | right]; by apply Z.leb_le.
Qed.

Lemma find_sorted_dates (l l' : list Contact.t) :
  l ≡ₚ l' →
  Contact.date <$> Contact.find_sorted l
  = Contact.date <$> Contact.find_sorted l'.
Proof.
  intros Hperm.
  apply (StronglySorted_unique_strong (λ x y : Z, (y ≤ x)%Z)).
  - intros. lia.
  - apply (StronglySorted_fmap _ Contact.newer_first); [done|].
    apply find_sorted_sorted.
  - apply (StronglySorted_fmap _ Contact.newer_first); [done|].
    apply find_sorted_sorted.
  - by rewrite !find_sorted_perm, Hperm.
Qed.

(** C7: an authenticated listing request is answered with all stored
    Inquiries, each exactly once, ordered by submission timestamp with the
    most recent first, and the order of the timestamps in the answer does
    not depend on the order in which the store holds the Inquiries. *)
Theorem contacts_newest_first e r w a :
  route r = GET_contacts →
  authenticate e r w = (Some a, w) →
  ∃ l,
    handle e r w =
      ({| status := 200; json := WithData true (ContactList l) |}, w)
    ∧ l ≡ₚ contacts w
    ∧ StronglySorted (λ x y, (Contact.date y ≤ Contact.date x)%Z) l
    ∧ ∀ stored,
        stored ≡ₚ contacts w →
        Contact.date <$> Contact.find_sorted stored = Contact.date <$> l.
Proof.
  intros Hroute Hauth. exists (Contact.find_sorted (contacts w)).
  unfold handle, auth. rewrite Hroute, Hauth.
  split; [done|]. split; [apply find_sorted_perm|].
  split; [apply find_sorted_sorted|].
  intros stored Hperm. by apply find_sorted_dates.
Qed.

(** *** Updating and deleting an inquiry *)

Lemma update_first_none {A} (p : A → bool) f l :
  (∀ x, x ∈ l → p x = false) → update_first p f l = (None, l).
Proof.
  induction l as [|x l IH]; simpl; [done|]. intros Hall.
  rewrite (Hall x) by left. rewrite IH; [done|].
  intros y Hy. apply Hall. by right.
Qed.

Lemma delete_first_none {A} (p : A → bool) l :
  (∀ x, x ∈ l → p x = false) → delete_first p l = l.
Proof.
  induction l as [|x l IH]; simpl; [done|]. intros Hall.
  rewrite (Hall x) by left. rewrite IH; [done|].
  intros y Hy. apply Hall. by right.
Qed.

Lemma set_contacts_id w : set_contacts (contacts w) w = w.
Proof. by destruct w. Qed.

Lemma has_id_none oid (l : list Contact.t) :
  (∀ c, c ∈ l → Contact._id c ≠ oid) →
  ∀ c, c ∈ l → Contact.has_id oid c = false.
Proof. intros Hno c Hc. apply string_eqb_false. by apply Hno. Qed.

(** C6 (as amended): for an id that is a well-formed ObjectId and matches
    no stored Inquiry, the status update answers success with [null] data
    and the delete answers success, neither surfacing a not-found error,
    and the world is unchanged; for an id that is no well-formed ObjectId
    both answer the generic HTTP 500, the world likewise unchanged. *)
Theorem missing_inquiry_id e r w a id :
  authenticate e r w = (Some a, w) →
  (∀ oid,
     castObjectId (JStr id) = Some oid →
     (∀ c, c ∈ contacts w → Contact._id c ≠ oid) →
     (route r = PUT_contact id →
      handle e r w =
        ({| status := 200; json := WithData true (ContactDoc None) |}, w))
     ∧ (route r = DELETE_contact id →
        handle e r w =
          ({| status := 200; json := Msg true "Contact deleted" |}, w)))
  ∧ (castObjectId (JStr id) = None →
     route r = PUT_contact id ∨ route r = DELETE_contact id →
     handle e r w = ({| status := 500; json := Msg false "Server error" |}, w)).
Proof.
  intros Hauth. split.
  - intros oid Hcast Hno.
    split; intros Hroute; unfold handle, auth; rewrite Hroute, Hauth.
    + unfold put_contact, Contact.findByIdAndUpdate. run. rewrite Hcast.
      simpl. rewrite update_first_none by by apply has_id_none.
      simpl. by rewrite set_contacts_id.
    + unfold delete_contact, Contact.findByIdAndDelete. run. rewrite Hcast.
      simpl. rewrite delete_first_none by by apply has_id_none.
      by rewrite set_contacts_id.
  - intros Hcast [Hroute | Hroute]; unfold handle, auth;
      rewrite Hroute, Hauth.
    + unfold put_contact, Contact.findByIdAndUpdate. run. by rewrite Hcast.
    + unfold delete_contact, Contact.findByIdAndDelete. run.
      by rewrite Hcast.
Qed.

(** *** Creating a portfolio entry *)




(** *** The stored password *)

Lemma reachable_passwords w a :
  reachable w → a ∈ admins w →
  ∃ p s, Admin.password a = bcrypt_hash p s.
Proof.
  intros Hw. revert a. induction Hw as [|w e r Hw IH]; intros a Ha.
  - by apply elem_of_nil in Ha.
  - destruct (handle_admins e r w) as [Heq | (u & p & _ & _ & _ & Heq)];
      rewrite Heq in Ha; [by apply IH|].
    apply elem_of_app in Ha as [Ha | Ha]; [by apply IH|].
    apply list_elem_of_singleton in Ha as ->. by exists p, (salt e).
Qed.

Lemma find_variant (p p' : Admin.t → bool) l l' :
  Forall2 same_account l l' →
  (∀ a a', same_account a a' → p a = p' a') →
  match find p l, find p' l' with
  | Some a, Some a' => same_account a a' ∧ a ∈ l ∧ a' ∈ l'
  | None, None => True
  | _, _ => False
  end.
Proof.
  intros Hll Hp. induction Hll as [|a a' l l' Haa Hll IH]; simpl; [done|].
  rewrite <- (Hp a a' Haa). destruct (p a).
  - split; [done|]. split; left.
  - destruct (find p l), (find p' l'); try done.
    destruct IH as (? & ? & ?). split; [done|]. split; by right.
Qed.

Lemma findById_variant id l l' :
  Forall2 same_account l l' →
  match Admin.findById id l, Admin.findById id l' with
  | Some (Some _), Some (Some _) | Some None, Some None | None, None => True
  | _, _ => False
  end.
Proof.
  intros Hll. unfold Admin.findById.
  destruct (castObjectId (JStr id)) as [oid|]; simpl; [|done].
  pose proof (find_variant (λ a, String.eqb (Admin._id a) oid)
                (λ a, String.eqb (Admin._id a) oid) l l' Hll) as Hfind.
  destruct (find _ l), (find _ l'); try done; apply Hfind;
    intros a a' [-> _]; done.
Qed.

Lemma findOne_variant v l l' :
  Forall2 same_account l l' →
  match Admin.findOne v l, Admin.findOne v l' with
  | Some a, Some a' => same_account a a' ∧ a ∈ l ∧ a' ∈ l'
  | None, None => True
  | _, _ => False
  end.
Proof.
  intros Hll. unfold Admin.findOne.
  assert (match head l, head l' with
          | Some a, Some a' => same_account a a' ∧ a ∈ l ∧ a' ∈ l'
          | None, None => True
          | _, _ => False
          end) as Hhead.
  { destruct Hll; simpl; [done|]. split; [done|]. split; left. }
  destruct v; simpl; try done;
    try (apply find_variant; [done|]; by intros a a' [_ ->]).
  by destruct ignoreUndefined.
Qed.

Lemma auth_variant e r next w w' :
  hash_variant w w' →
  (∀ a a', (next a w).1 = (next a' w').1) →
  (auth e r next w).1 = (auth e r next w').1.
Proof.
  intros (_ & _ & Hadmins) Hnext. unfold auth, authenticate.
  destruct (negb (truthy (bearer r))); [done|]. run.
  destruct (jwt_verify _ _) as [id|]; [|done].
  pose proof (findById_variant id _ _ Hadmins) as Hfind.
  destruct (Admin.findById id (admins w)) as [[a|]|],
    (Admin.findById id (admins w')) as [[a'|]|]; done.
Qed.

Lemma post_contact_response e r w w' :
  (post_contact e r w).1 = (post_contact e r w').1.
Proof.
  unfold post_contact.
  destruct (_ || _); run; [done|].
  destruct (Contact.create _ _ _ _ _ _ _); [|done].
  unfold sendMail. destruct (sendMail_ok e); run; done.
Qed.

Lemma register_response e r w w' :
  hash_variant w w' → (register e r w).1 = (register e r w').1.
Proof.
  intros (_ & _ & Hadmins). unfold register, hash. run.
  pose proof (findOne_variant (field "username" (body r)) _ _ Hadmins)
    as Hfind.
  destruct (Admin.findOne _ (admins w)), (Admin.findOne _ (admins w'));
    try done.
  destruct (field "password" (body r)); try done. simpl.
  by destruct (Admin.create _ _ _).
Qed.

Lemma login_response e r w w' :
  hash_variant w w' →
  (∀ p a a',
     field "password" (body r) = JStr p →
     a ∈ admins w → a' ∈ admins w' → same_account a a' →
     bcrypt_compare p (Admin.password a)
     = bcrypt_compare p (Admin.password a')) →
  (login e r w).1 = (login e r w').1.
Proof.
  intros (_ & _ & Hadmins) Hcmp. unfold login, compare. run.
  pose proof (findOne_variant (field "username" (body r)) _ _ Hadmins)
    as Hfind.
  destruct (Admin.findOne _ (admins w)) as [a|],
    (Admin.findOne _ (admins w')) as [a'|]; try done.
  destruct Hfind as (Hsame & Ha & Ha').
  destruct (field "password" (body r)) as [| | | |p] eqn:Hp; try done.
  simpl. rewrite (Hcmp p a a') by done.
  destruct Hsame as [-> _]. by destruct (bcrypt_compare _ _).
Qed.

(** C9: in every reachable world the stored password of an account is an
    output of the salted hash, never the plaintext it was computed from
    (the hash never returning its input); and no answer carries a stored
    hash: the answer to a request is the same in two worlds that differ
    only in the stored hashes, a login depending on them through the
    verdict of the comparison alone. *)
Theorem password_hash_confined :
  (∀ p s, bcrypt_hash p s ≠ p) →
  (∀ w a,
     reachable w → a ∈ admins w →
     ∃ p s, Admin.password a = bcrypt_hash p s ∧ Admin.password a ≠ p)
  ∧ (∀ e r w w',
       hash_variant w w' →
       (route r = POST_admin_login →
        ∀ p a a',
          field "password" (body r) = JStr p →
          a ∈ admins w → a' ∈ admins w' → same_account a a' →
          bcrypt_compare p (Admin.password a)
          = bcrypt_compare p (Admin.password a')) →
       (handle e r w).1 = (handle e r w').1).
Proof.
  intros Hhash. split.
  - intros w a Hw Ha.
    destruct (reachable_passwords w a Hw Ha) as (p & s & Heq).
    exists p, s. split; [done|]. rewrite Heq. apply Hhash.
  - intros e r w w' Hvar Hlogin. pose proof Hvar as (Hc & Hl & _).
    unfold handle. destruct (route r).
    + apply post_contact_response.
    + apply auth_variant; [done|]. intros _ _.
      unfold get_contacts. run. by rewrite Hc.
    + apply auth_variant; [done|]. intros _ _.
      unfold put_contact. run. rewrite Hc.
      by destruct (Contact.findByIdAndUpdate _ _ _).
    + apply auth_variant; [done|]. intros _ _.
      unfold delete_contact. run. rewrite Hc.
      by destruct (Contact.findByIdAndDelete _ _).
    + unfold get_clients. run. by rewrite Hl.
    + apply auth_variant; [done|]. intros _ _.
      unfold post_clients. run. destruct (Client.create _ _ _); [|done].
      rewrite Hl. by destruct (Client.save _ _ _).
    + by apply register_response.
    + apply login_response; [done|]. by apply Hlogin.
Qed.

End Properties.

(** ** Further properties of the handlers *)

Section Coverage.
Context {rt : Runtime} {pf : Platform}.

Ltac eff :=
  unfold try_, try_catch, await, modify, throw, send, console_log;
  unfold mbind, Eff_bind, mret, Eff_ret; simpl.

(** *** [replace] *)

Lemma String_replace_unfold pat rep s :
  String_replace pat rep s =
    if String.prefix pat s then rep +:+ skip (String.length pat) s
    else match s with
         | EmptyString => EmptyString
         | String c s' => String c (String_replace pat rep s')
         end.
Proof. by destruct s. Qed.

Lemma prefix_append pat s : String.prefix pat (pat +:+ s) = true.
Proof.
  induction pat as [|c pat IH]; simpl; [by destruct s|].
  by destruct (ascii_dec c c).
Qed.

Lemma skip_append pat s : skip (String.length pat) (pat +:+ s) = s.
Proof. induction pat as [|c pat IH]; simpl; [by destruct s | apply IH]. Qed.

Lemma prefix_skip pat s :
  String.prefix pat s = true → s = pat +:+ skip (String.length pat) s.
Proof.
  revert s. induction pat as [|c pat IH]; intros s; simpl.
  - by destruct s.
  - destruct s as [|d s]; simpl; [done|].
    destruct (ascii_dec c d) as [->|]; [|done].
    intros Hp.
    change (String d s = String d (pat +:+ skip (String.length pat) s)).
    f_equal. by apply IH.
Qed.

Lemma String_replace_prefix pat rep s :
  String_replace pat rep (pat +:+ s) = rep +:+ s.
Proof.
  by rewrite String_replace_unfold, prefix_append, skip_append.
Qed.

Lemma String_replace_cases pat rep s :
  (∃ a b,
     s = a +:+ pat +:+ b
     ∧ String_replace pat rep s = a +:+ rep +:+ b
     ∧ ∀ a' b',
         s = a' +:+ pat +:+ b' → (String.length a ≤ String.length a')%nat)
  ∨ ((∀ a b, s ≠ a +:+ pat +:+ b) ∧ String_replace pat rep s = s).
Proof.
  induction s as [|c s IH]; rewrite String_replace_unfold.
  - destruct (String.prefix pat "") eqn:Hp.
    + left. exists "", (skip (String.length pat) "").
      split; [by apply prefix_skip|]. split; [done|]. simpl. lia.
    + right. split; [|done]. intros a b Heq.
      destruct a; [|done]. change ("" = pat +:+ b) in Heq.
      pose proof (prefix_append pat b) as Hpre. rewrite <- Heq in Hpre.
      congruence.
  - destruct (String.prefix pat (String c s)) eqn:Hp.
    + left. exists "", (skip (String.length pat) (String c s)).
      split; [by apply prefix_skip|]. split; [done|]. simpl. lia.
    + assert (∀ a b, String c s = a +:+ pat +:+ b →
                     ∃ a0, a = String c a0 ∧ s = a0 +:+ pat +:+ b) as Hcons.
      { intros a b Heq. destruct a as [|d a].
        - change (String c s = pat +:+ b) in Heq. pose proof (prefix_append pat b) as Hpre. rewrite <- Heq in Hpre.
          congruence.
        - change (String c s = String d (a +:+ pat +:+ b)) in Heq.
          injection Heq as -> ->. by eexists. }
      destruct IH as [(a & b & Hs & Hr & Hfirst) | [Hno Hr]].
      * left. exists (String c a), b.
        change (String c s = String c (a +:+ pat +:+ b)
                ∧ String c (String_replace pat rep s)
                  = String c (a +:+ rep +:+ b)
                ∧ ∀ a' b',
                    String c s = a' +:+ pat +:+ b' →
                    (S (String.length a) ≤ String.length a')%nat).
        rewrite Hr, <- Hs.
        split; [done|]. split; [done|]. intros a' b' Heq.
        destruct (Hcons a' b' Heq) as (a0 & -> & Hs'). simpl.
        specialize (Hfirst a0 b' Hs'). lia.
      * right. rewrite Hr. split; [|done]. intros a b Heq.
        destruct (Hcons a b Heq) as (a0 & _ & Hs'). by apply (Hno a0 b).
Qed.

(** [s.replace(pat, rep)] rewrites the first occurrence of [pat] and
    nothing else: either [pat] occurs in [s], and the result is [s] with
    its leftmost occurrence replaced by [rep], or [pat] does not occur and
    the result is [s] itself. *)
Theorem String_replace_first pat rep s :
  (∃ a b,
     s = a +:+ pat +:+ b
     ∧ String_replace pat rep s = a +:+ rep +:+ b
     ∧ ∀ a' b',
         s = a' +:+ pat +:+ b' → (String.length a ≤ String.length a')%nat)
  ∨ ((∀ a b, s ≠ a +:+ pat +:+ b) ∧ String_replace pat rep s = s).
Proof. apply String_replace_cases. Qed.

(** *** The guard lets through *)

Lemma find_some_iff {A} (p : A → bool) (l : list A) :
  is_Some (find p l) ↔ ∃ x, x ∈ l ∧ p x = true.
Proof.
  split.
  - intros [x Hx]. exists x. by apply find_some_elem.
  - intros (x & Hx & Hp). destruct (find p l) eqn:Hfind; [by eexists|].
    rewrite find_none_iff in Hfind. rewrite (Hfind x Hx) in Hp. done.
Qed.

Lemma bearer_cases r :
  (Authorization r = None ∧ bearer r = JUndefined)
  ∨ ∃ h, Authorization r = Some h
         ∧ bearer r = JStr (String_replace "Bearer " "" h).
Proof.
  unfold bearer. destruct (Authorization r) as [h|]; [right | left]; eauto.
Qed.

Lemma authenticate_success e r w a :
  authenticate e r w = (Some a, w) ↔
  ∃ token id oid,
    bearer r = JStr token ∧ token ≠ ""
    ∧ jwt_verify (now e) token = Some id
    ∧ castObjectId (JStr id) = Some oid
    ∧ find (λ x, String.eqb (Admin._id x) oid) (admins w) = Some a.
Proof.
  unfold authenticate, Admin.findById.
  destruct (bearer_cases r) as [[_ ->] | (h & _ & ->)]; simpl.
  { split; [done|]. by intros (? & ? & ? & ? & _). }
  set (token := String_replace "Bearer " "" h).
  destruct (String.eqb_spec token "") as [Hempty | Hfull]; simpl.
  { split; [done|]. intros (? & ? & ? & [= <-] & ? & _). done. }
  eff. split.
  - destruct (jwt_verify (now e) token) as [id|] eqn:Hver; [|done].
    destruct (castObjectId (JStr id)) as [oid|] eqn:Hcast; simpl; [|done].
    destruct (find _ (admins w)) as [x|] eqn:Hfind; [|done].
    intros [= ->]. by exists token, id, oid.
  - intros (t & id & oid & [= <-] & _ & -> & -> & Hfind). simpl.
    by rewrite Hfind.
Qed.

(** X1: the auth middleware turns a request down for one of its three
    causes and for nothing else: otherwise the request carries a non-empty
    token that verifies, the id in it is that of a stored account, and the
    handler runs on the unchanged world with that account as [req.admin]. *)
Theorem auth_guard_exact e r w next :
  (AuthFailure e r w ∧ auth e r next w = (Unauthenticated, w))
  ∨ (¬ AuthFailure e r w
     ∧ ∃ token id a,
         bearer r = JStr token ∧ token ≠ ""
         ∧ jwt_verify (now e) token = Some id
         ∧ castObjectId (JStr id) = Some (Admin._id a)
         ∧ a ∈ admins w
         ∧ auth e r next w = next a w).
Proof.
  destruct (auth_cases e r next w) as [[Hnone Hauth] | (a & Hsome & Hauth)].
  - left. split; [|done].
    destruct (bearer_cases r) as [[_ Hb] | (h & _ & Hb)].
    { apply no_token. by left. }
    set (token := String_replace "Bearer " "" h) in *.
    destruct (String.eqb_spec token "") as [Hempty | Hfull].
    { apply no_token. right. by rewrite Hb, Hempty. }
    destruct (jwt_verify (now e) token) as [id|] eqn:Hver;
      [|by apply (bad_token _ _ _ token)].
    apply (deleted_admin _ _ _ token id); [done..|].
    intros x Hx Hcast.
    assert (is_Some (find (λ y, String.eqb (Admin._id y) (Admin._id x))
                       (admins w))) as [y Hy].
    { apply find_some_iff. exists x. split; [done|]. apply String.eqb_refl. }
    assert (authenticate e r w = (Some y, w)) as Hyes.
    { apply authenticate_success. by exists token, id, (Admin._id x). }
    congruence.
  - right. pose proof Hsome as Hyes.
    apply authenticate_success in Hyes
      as (token & id & oid & Hb & Hfull & Hver & Hcast & Hfind).
    apply find_some_elem in Hfind as [Ha Hid]. apply String.eqb_eq in Hid.
    split.
    + intros Hfail. apply authenticate_failure in Hfail. congruence.
    + exists token, id, a. by rewrite Hid.
Qed.

(** *** Updating and deleting a stored inquiry *)



Lemma authenticate_admins e r w w' :
  admins w = admins w' →
  (authenticate e r w).1 = (authenticate e r w').1.
Proof.
  intros Heq. unfold authenticate.
  destruct (negb (truthy (bearer r))); [done|]. eff.
  destruct (jwt_verify _ _); [|done]. rewrite Heq.
  by destruct (Admin.findById _ _) as [[?|]|].
Qed.

Lemma authenticate_transfer e r w w' a :
  admins w = admins w' →
  authenticate e r w = (Some a, w) → authenticate e r w' = (Some a, w').
Proof.
  intros Heq Hauth. pose proof (authenticate_admins e r w w' Heq) as H1.
  pose proof (authenticate_world e r w') as H2.
  rewrite Hauth in H1. destruct (authenticate e r w') as [o w'']. simpl in *.
  by subst.
Qed.



(** *** The public portfolio listing *)

Lemma client_date_leb_total (x y : Client.t) :
  Client.date_leb x y = true ∨ Client.date_leb y x = true.
Proof.
  unfold Client.date_leb.
  destruct (Client.date x) as [a|], (Client.date y) as [b|]; auto.
  destruct (Z.le_ge_cases a b); [left | right]; by apply Z.leb_le.
Qed.

Lemma client_date_leb_trans (x y z : Client.t) :
  Client.date_leb x y = true → Client.date_leb y z = true →
  Client.date_leb x z = true.
Proof.
  unfold Client.date_leb.
  destruct (Client.date x) as [a|], (Client.date y) as [b|],
    (Client.date z) as [c|]; try done.
  rewrite !Z.leb_le. lia.
Qed.

(** X6: the portfolio listing needs no token: whatever the Authorization
    header, it answers HTTP 200 with all stored entries, each exactly once,
    the most recent date first and the entries without a date last, and
    changes nothing. *)
Theorem clients_listing_public e r w :
  route r = GET_clients →
  ∃ l,
    handle e r w =
      ({| status := 200; json := WithData true (ClientList l) |}, w)
    ∧ l ≡ₚ clients w
    ∧ StronglySorted (λ x y, Client.date_leb y x = true) l.
Proof.
  intros Hroute. exists (Client.find_sorted (clients w)).
  unfold handle. rewrite Hroute. split; [done|].
  split; [apply sort_desc_perm|].
  apply Sorted.Sorted_StronglySorted.
  - intros x y z Hxy Hyz. by apply (client_date_leb_trans z y x).
  - apply (sort_desc_sorted Client.date_leb), client_date_leb_total.
Qed.

(** *** A portfolio entry that does not cast *)

(** X7: an authenticated portfolio creation whose [clientRating] does not
    cast to a number, whose [date] does not cast to a date, or whose [_id]
    does not cast to an ObjectId is answered the generic HTTP 500 and
    stores nothing. *)
Theorem portfolio_creation_rejected e r w a :
  route r = POST_clients →
  authenticate e r w = (Some a, w) →
  Client.cast_path castNumber (field "clientRating" (body r)) = None
  ∨ Client.cast_date (now e) (field "date" (body r)) = None
  ∨ (field "_id" (body r) ≠ JUndefined
     ∧ castObjectId (field "_id" (body r)) = None) →
  handle e r w = ({| status := 500; json := Msg false "Server error" |}, w).
Proof.
  intros Hroute Hauth Hbad. unfold handle, auth. rewrite Hroute, Hauth.
  unfold post_clients. eff.
  assert (Client.create (new_ObjectId e) (now e) (body r) = None) as ->;
    [|done].
  unfold Client.create.
  destruct Hbad as [Hrating | [Hdate | [Hid Hcast]]].
  - rewrite Hrating.
    destruct (field "_id" (body r)); simpl; try done;
      by destruct (castObjectId _).
  - rewrite Hdate.
    destruct (Client.cast_path castNumber _); simpl;
      destruct (field "_id" (body r)); simpl; try done;
      by destruct (castObjectId _).
  - destruct (field "_id" (body r)); try done; by rewrite Hcast.
Qed.

(** *** A login without a password *)

(** X8: a login whose password is absent or not a string is answered the
    generic HTTP 500 when the lookup by username finds an account (the
    comparison rejects), and HTTP 401 "Invalid credentials" when it finds
    none; the world is unchanged either way. *)
Theorem login_without_password e r w :
  route r = POST_admin_login →
  (∀ s, field "password" (body r) ≠ JStr s) →
  (is_Some (Admin.findOne (field "username" (body r)) (admins w)) →
   handle e r w = ({| status := 500; json := Msg false "Server error" |}, w))
  ∧ (Admin.findOne (field "username" (body r)) (admins w) = None →
     handle e r w =
       ({| status := 401; json := Msg false "Invalid credentials" |}, w)).
Proof.
  intros Hroute Hp. unfold handle. rewrite Hroute. unfold login, compare.
  split.
  - intros [x Hx]. eff. rewrite Hx.
    destruct (field "password" (body r)) eqn:Hpw; try done.
    by destruct (Hp s).
  - intros Hnone. eff. by rewrite Hnone.
Qed.

(** *** What each route may write *)

Lemma auth_frame (P : World → World → Prop) e r next w :
  P w w → (∀ a, P w (next a w).2) → P w (auth e r next w).2.
Proof.
  intros Hrefl Hnext.
  destruct (auth_cases e r next w) as [[_ ->] | (a & _ & ->)]; [done|].
  apply Hnext.
Qed.

Lemma handle_writes e r w :
  let w' := (handle e r w).2 in
  match route r with
  | GET_contacts | GET_clients | POST_admin_login => w' = w
  | POST_contact => clients w' = clients w ∧ admins w' = admins w
  | PUT_contact _ | DELETE_contact _ =>
      clients w' = clients w ∧ admins w' = admins w
      ∧ outbox w' = outbox w ∧ console w' = console w
  | POST_clients =>
      contacts w' = contacts w ∧ admins w' = admins w
      ∧ outbox w' = outbox w ∧ console w' = console w
  | POST_admin_register =>
      contacts w' = contacts w ∧ clients w' = clients w
      ∧ outbox w' = outbox w ∧ console w' = console w
  end.
Proof.
  unfold handle. destruct (route r); simpl.
  - unfold post_contact. destruct (_ || _); eff; [done|].
    destruct (Contact.create _ _ _ _ _ _ _); [|done].
    unfold sendMail. destruct (sendMail_ok e); eff; done.
  - apply (auth_frame (λ w w', w' = w)); done.
  - apply (auth_frame (λ w w', clients w' = clients w ∧ admins w' = admins w
      ∧ outbox w' = outbox w ∧ console w' = console w)); [done|].
    intros _. unfold put_contact. eff.
    by destruct (Contact.findByIdAndUpdate _ _ _).
  - apply (auth_frame (λ w w', clients w' = clients w ∧ admins w' = admins w
      ∧ outbox w' = outbox w ∧ console w' = console w)); [done|].
    intros _. unfold delete_contact. eff.
    by destruct (Contact.findByIdAndDelete _ _).
  - done.
  - apply (auth_frame (λ w w', contacts w' = contacts w
      ∧ admins w' = admins w
      ∧ outbox w' = outbox w ∧ console w' = console w)); [done|].
    intros _. unfold post_clients. eff.
    destruct (Client.create _ _ _); [|done].
    by destruct (Client.save _ _ _).
  - unfold register, hash. eff.
    destruct (Admin.findOne _ _); [done|].
    destruct (field "password" (body r)); try done. simpl.
    by destruct (Admin.create _ _ _).
  - unfold login, compare. eff.
    destruct (Admin.findOne _ _); [|done].
    destruct (field "password" (body r)); try done. simpl.
    by destruct (negb _).
Qed.

(** X13: each route writes to its own part of the world and to nothing
    else: the two listings and the login change nothing at all; a contact
    submission leaves portfolio and accounts alone; a status update and a
    delete touch the inquiries only; a portfolio creation touches the
    portfolio only; a registration touches the accounts only. *)
Theorem handle_frame e r w :
  let w' := (handle e r w).2 in
  match route r with
  | GET_contacts | GET_clients | POST_admin_login => w' = w
  | POST_contact => clients w' = clients w ∧ admins w' = admins w
  | PUT_contact _ | DELETE_contact _ =>
      clients w' = clients w ∧ admins w' = admins w
      ∧ outbox w' = outbox w ∧ console w' = console w
  | POST_clients =>
      contacts w' = contacts w ∧ admins w' = admins w
      ∧ outbox w' = outbox w ∧ console w' = console w
  | POST_admin_register =>
      contacts w' = contacts w ∧ clients w' = clients w
      ∧ outbox w' = outbox w ∧ console w' = console w
  end.
Proof. apply handle_writes. Qed.

(** *** The notification *)

(** X11: after a valid contact submission, if the mail goes out the outbox
    holds exactly one more mail, made of the submitted name, email and
    message, with "Not provided" for an absent or empty phone and
    "Not specified" for an absent or empty service, and nothing is logged;
    if the dispatch fails nothing is sent and the console gets the one line
    "Email notification failed:". *)
Theorem notification_outcome e r w n m t :
  route r = POST_contact →
  field "name" (body r) = JStr n → n ≠ "" →
  field "email" (body r) = JStr m → m ≠ "" →
  field "message" (body r) = JStr t → t ≠ "" →
  let w' := (handle e r w).2 in
  let phone := field "phone" (body r) in
  let service := field "service" (body r) in
  if sendMail_ok e then
    outbox w' = outbox w ++
      [{| mail_name := n; mail_email := m;
          mail_phone :=
            if truthy phone then toString phone else "Not provided";
          mail_service :=
            if truthy service then toString service else "Not specified";
          mail_message := t |}]
    ∧ console w' = console w
  else
    outbox w' = outbox w
    ∧ console w' = console w ++ ["Email notification failed:"].
Proof.
  intros Hroute Hn Hn' Hm Hm' Ht Ht'. unfold handle. rewrite Hroute.
  unfold post_contact. rewrite Hn, Hm, Ht, !truthy_nonempty by done. simpl.
  unfold Contact.create. simpl.
  rewrite (string_eqb_false n ""), (string_eqb_false m "") by done.
  unfold sendMail, notification, or_else. eff.
  destruct (sendMail_ok e); eff; [|done].
  split; [|done]. do 2 f_equal.
  by destruct (truthy (field "phone" (body r))),
       (truthy (field "service" (body r))).
Qed.

(** *** What the store holds *)

Lemma update_first_Forall {A} (P : A → Prop) p f l :
  (∀ x, P x → P (f x)) → Forall P l → Forall P (update_first p f l).2.
Proof.
  intros Hf. induction 1 as [|x l Hx Hl IH]; simpl; [constructor|].
  destruct (p x); simpl; [by constructor; auto|].
  destruct (update_first p f l) as [o l']. simpl in *. by constructor.
Qed.

Lemma delete_first_Forall {A} (P : A → Prop) p l :
  Forall P l → Forall P (delete_first p l).
Proof.
  induction 1 as [|x l Hx Hl IH]; simpl; [constructor|].
  destruct (p x); [done | by constructor].
Qed.

Lemma castString_truthy v : truthy v = true → is_Some (castString v).
Proof. destruct v; simpl; try done; by eexists. Qed.

Lemma required_some v s : required v = Some s → s ≠ "".
Proof.
  unfold required. destruct v as [x|]; [|done].
  destruct (String.eqb_spec x ""); [done|]. by intros [= <-].
Qed.

Lemma handle_contacts_Forall (P : Contact.t → Prop) e r w :
  (∀ c,
     truthy (field "message" (body r)) = true →
     Contact.create (new_ObjectId e) (now e)
       (field "name" (body r)) (field "email" (body r))
       (field "phone" (body r)) (field "service" (body r))
       (field "message" (body r)) = Some c →
     P c) →
  (∀ v c, P c → P (Contact.set_status v c)) →
  Forall P (contacts w) → Forall P (contacts (handle e r w).2).
Proof.
  intros Hcreate Hset Hw.
  pose proof (handle_writes e r w) as Hframe. unfold handle in *.
  destruct (route r); simpl in Hframe;
    try (destruct Hframe as (-> & _); done); try (by rewrite Hframe).
  - unfold post_contact.
    destruct (truthy (field "message" (body r))) eqn:Hmsg;
      [|by rewrite !orb_true_r].
    destruct (_ || _); eff; [done|].
    destruct (Contact.create _ _ _ _ _ _ _) as [c|] eqn:Hc; [|done].
    assert (Forall P (contacts w ++ [c])) as Happ.
    { apply Forall_app. split; [done|]. repeat constructor. by apply Hcreate. }
    unfold sendMail. destruct (sendMail_ok e); eff; done.
  - apply (auth_frame (λ w w', Forall P (contacts w'))); [done|].
    intros _. unfold put_contact, Contact.findByIdAndUpdate. eff.
    destruct (castObjectId _); simpl; [|done].
    apply update_first_Forall; auto.
  - apply (auth_frame (λ w w', Forall P (contacts w'))); [done|].
    intros _. unfold delete_contact, Contact.findByIdAndDelete. eff.
    destruct (castObjectId _); simpl; [|done].
    by apply delete_first_Forall.
  - exact Hw.
Qed.

Lemma handle_admins_Forall (P : Admin.t → Prop) e r w :
  (∀ a s,
     Admin.create (new_ObjectId e) (field "username" (body r)) s = Some a →
     P a) →
  Forall P (admins w) → Forall P (admins (handle e r w).2).
Proof.
  intros Hcreate Hw.
  pose proof (handle_writes e r w) as Hframe. unfold handle in *.
  destruct (route r); simpl in Hframe;
    try (destruct Hframe as (? & Heq & _); by rewrite Heq);
    try (destruct Hframe as (? & Heq); by rewrite Heq);
    try (by rewrite Hframe); try exact Hw.
  unfold register, hash. eff.
  destruct (Admin.findOne _ _); [done|].
  destruct (field "password" (body r)); try done. simpl.
  destruct (Admin.create _ _ _) as [a|] eqn:Ha; [|done]. simpl.
  apply Forall_app. split; [done|]. repeat constructor. by eapply Hcreate.
Qed.

Lemma reachable_valid w :
  reachable w →
  Forall (λ c, Contact.name c ≠ "" ∧ Contact.email c ≠ ""
               ∧ is_Some (Contact.message c)) (contacts w)
  ∧ Forall (λ a, Admin.username a ≠ "" ∧ Admin.password a ≠ "") (admins w).
Proof.
  induction 1 as [|w e r Hw [IHc IHa]]; [by split; constructor|]. split.
  - apply handle_contacts_Forall; [| |done].
    + intros c Hmsg Hc. unfold Contact.create in Hc.
      destruct (required (castString (field "name" (body r)))) as [n|]
        eqn:Hn; [|done].
      destruct (required (castString (field "email" (body r)))) as [m|]
        eqn:Hm; [|done].
      simpl in Hc. injection Hc as <-. simpl.
      split; [by eapply required_some|]. split; [by eapply required_some|].
      by apply castString_truthy.
    + intros v c (? & ? & ?). unfold Contact.set_status.
      destruct v; simpl; try done. by destruct omitUndefined.
  - apply handle_admins_Forall; [|done].
    intros a s Ha. unfold Admin.create in Ha.
    destruct (required (castString (field "username" (body r)))) as [u|]
      eqn:Hu; [|done].
    destruct (required (Some s)) as [q|] eqn:Hq; [|done].
    simpl in Ha. injection Ha as <-. simpl. split; by eapply required_some.
Qed.

(** X15: whatever requests the server has handled, every stored Inquiry
    has a non-empty name, a non-empty email and a message (the schema
    leaves [message] optional, the handler does not), and every stored
    account has a non-empty username and a non-empty password field. *)
Theorem reachable_documents w :
  reachable w →
  Forall (λ c, Contact.name c ≠ "" ∧ Contact.email c ≠ ""
               ∧ is_Some (Contact.message c)) (contacts w)
  ∧ Forall (λ a, Admin.username a ≠ "" ∧ Admin.password a ≠ "") (admins w).
Proof. apply reachable_valid. Qed.

(** X9: a registration with the empty string for username is answered the
    generic HTTP 500 and stores nothing, whatever its password: no stored
    account has an empty username, and the [required] validation of the
    new account (or, without a string password, the hashing) fails. *)
Theorem register_empty_username e r w :
  reachable w →
  route r = POST_admin_register →
  field "username" (body r) = JStr "" →
  handle e r w = ({| status := 500; json := Msg false "Server error" |}, w).
Proof.
  intros Hw Hroute Hu. unfold handle. rewrite Hroute.
  destruct (reachable_valid w Hw) as [_ Hadmins].
  rewrite Forall_forall in Hadmins.
  unfold register, hash. eff. rewrite Hu.
  rewrite findOne_unknown by (intros a Ha; by apply Hadmins).
  by destruct (field "password" (body r)).
Qed.

(** *** Register, log in, present the token *)

Lemma find_app_none {A} (p : A → bool) l1 l2 :
  (∀ x, x ∈ l1 → p x = false) → find p (l1 ++ l2) = find p l2.
Proof.
  intros Hl1. induction l1 as [|x l1 IH]; simpl; [done|].
  rewrite (Hl1 x) by left. apply IH. intros y Hy. apply Hl1. by right.
Qed.

(** X10: registering, logging in and presenting the token compose.  After
    a registration with a fresh non-empty username and a password [p], a
    login with the same credentials is answered HTTP 200 with the token
    signed for the new account's id, provided the comparison accepts [p]
    against its own hash; and a request that presents that token as
    [Bearer <token>] passes the auth middleware as an account with that
    id, provided the token verifies to the id it was signed for. *)
Theorem register_login_authenticate e1 e2 e3 r1 r2 r3 w u p :
  route r1 = POST_admin_register →
  field "username" (body r1) = JStr u → u ≠ "" →
  field "password" (body r1) = JStr p →
  bcrypt_hash p (salt e1) ≠ "" →
  (∀ a, a ∈ admins w → Admin.username a ≠ u) →
  route r2 = POST_admin_login →
  field "username" (body r2) = JStr u →
  field "password" (body r2) = JStr p →
  bcrypt_compare p (bcrypt_hash p (salt e1)) = true →
  let w1 := (handle e1 r1 w).2 in
  let token := jwt_sign (new_ObjectId e1) (now e2) in
  handle e2 r2 w1 =
    ({| status := 200; json := WithToken true token "Login successful" |},
     w1)
  ∧ (∀ id,
       Authorization r3 = Some ("Bearer " +:+ token) → token ≠ "" →
       jwt_verify (now e3) token = Some id →
       castObjectId (JStr id) = Some (new_ObjectId e1) →
       ∃ a, Admin._id a = new_ObjectId e1 ∧ a ∈ admins w1
            ∧ authenticate e3 r3 w1 = (Some a, w1)).
Proof.
  intros Hr1 Hu Hu' Hp Hh Hfresh Hr2 Hu2 Hp2 Hcmp w1 token.
  set (new := {| Admin._id := new_ObjectId e1; Admin.username := u;
                 Admin.password := bcrypt_hash p (salt e1) |}).
  assert (w1 = set_admins (admins w ++ [new]) w) as Hw1.
  { unfold w1, handle. rewrite Hr1.
    rewrite (register_fresh e1 r1 w u p); try done.
    rewrite Hu. by apply findOne_unknown. }
  assert (admins w1 = admins w ++ [new]) as Hadmins by by rewrite Hw1.
  split.
  - unfold handle. rewrite Hr2. unfold login, compare. eff.
    rewrite Hu2, Hp2, (findOne_cast _ u), Hadmins by done.
    rewrite find_app_none
      by (intros a Ha; apply string_eqb_false; by apply Hfresh).
    simpl. rewrite String.eqb_refl. simpl. by rewrite Hcmp.
  - intros id Hheader Htoken Hver Hcast.
    assert (is_Some (find (λ x, String.eqb (Admin._id x) (new_ObjectId e1))
                       (admins w1))) as [a Ha].
    { apply find_some_iff. exists new. split; [|apply String.eqb_refl].
      rewrite Hadmins. apply elem_of_app. right. left. }
    exists a. pose proof (find_some_elem _ _ _ Ha) as [Hin Hid].
    apply String.eqb_eq in Hid. split; [done|]. split; [done|].
    apply authenticate_success. exists token, id, (new_ObjectId e1).
    split; [|done]. unfold bearer. rewrite Hheader.
    by rewrite String_replace_prefix.
Qed.

(** *** Submit, then list *)

Lemma foldr_insert_newest {A} (leb : A → A → bool) x s l :
  (∀ y, y ∈ l → leb x y = false) →
  foldr (insert_desc leb) (x :: s) l = x :: foldr (insert_desc leb) s l.
Proof.
  intros Hl. induction l as [|y l IH]; simpl; [done|].
  rewrite IH by (intros z Hz; apply Hl; by right). simpl.
  by rewrite (Hl y) by left.
Qed.

Lemma sort_desc_snoc_newest {A} (leb : A → A → bool) x l :
  (∀ y, y ∈ l → leb x y = false) →
  sort_desc leb (l ++ [x]) = x :: sort_desc leb l.
Proof.
  intros Hl. unfold sort_desc. rewrite foldr_app. simpl.
  by apply foldr_insert_newest.
Qed.

(** X12: a valid contact submission shows in the next authenticated
    listing: the listing holds the new Inquiry and the Inquiries stored
    before, each exactly once, and when the server's clock at the
    submission is later than every stored timestamp the new Inquiry comes
    first, followed by the earlier listing. *)
Theorem submission_then_listing e1 e2 r1 r2 w a n m t :
  route r1 = POST_contact →
  field "name" (body r1) = JStr n → n ≠ "" →
  field "email" (body r1) = JStr m → m ≠ "" →
  field "message" (body r1) = JStr t → t ≠ "" →
  route r2 = GET_contacts →
  authenticate e2 r2 w = (Some a, w) →
  let w' := (handle e1 r1 w).2 in
  let new :=
    {| Contact._id := new_ObjectId e1;
       Contact.name := n;
       Contact.email := m;
       Contact.phone := castString (field "phone" (body r1));
       Contact.service := castString (field "service" (body r1));
       Contact.message := Some t;
       Contact.date := now e1;
       Contact.status := Some "new" |} in
  ∃ l,
    handle e2 r2 w' =
      ({| status := 200; json := WithData true (ContactList l) |}, w')
    ∧ l ≡ₚ new :: contacts w
    ∧ ((∀ c, c ∈ contacts w → (Contact.date c < now e1)%Z) →
       l = new :: Contact.find_sorted (contacts w)).
Proof.
  intros Hr1 Hn Hn' Hm Hm' Ht Ht' Hr2 Hauth w' new.
  destruct (post_contact_valid e1 r1 w n m t)
    as (w1 & Hpost & Hcontacts & _ & Hadmins & _); try done.
  assert (w' = w1) as -> by (unfold w', handle; by rewrite Hr1, Hpost).
  exists (Contact.find_sorted (contacts w1)).
  unfold handle, auth. rewrite Hr2.
  rewrite (authenticate_transfer e2 r2 w w1 a) by done.
  split; [done|]. rewrite Hcontacts. fold new. split.
  - rewrite find_sorted_perm. by rewrite Permutation_app_comm.
  - intros Hnewest. apply sort_desc_snoc_newest. intros c Hc.
    unfold Contact.date_leb. simpl. apply Z.leb_gt. by apply Hnewest.
Qed.

(** *** A header without the scheme *)

(** X2: the middleware does not require the [Bearer] scheme: a header
    that is the bare token (in which "Bearer " does not occur) is treated
    exactly as the header "Bearer " followed by that token. *)
Theorem bare_token_accepted e r r' w token :
  (∀ a b, token ≠ a +:+ "Bearer " +:+ b) →
  Authorization r = Some token →
  Authorization r' = Some ("Bearer " +:+ token) →
  authenticate e r w = authenticate e r' w.
Proof.
  intros Habsent Hr Hr'. unfold authenticate, bearer. rewrite Hr, Hr'.
  rewrite String_replace_prefix.
  destruct (String_replace_cases "Bearer " "" token)
    as [(a & b & Heq & _) | [_ ->]]; [|done].
  by destruct (Habsent a b).
Qed.

(** *** Accounts and portfolio only grow *)

Lemma handle_clients e r w :
  clients (handle e r w).2 = clients w
  ∨ ∃ c, clients (handle e r w).2 = clients w ++ [c].
Proof.
  pose proof (handle_writes e r w) as Hframe. unfold handle in *.
  destruct (route r); simpl in Hframe;
    try (left; destruct Hframe as (Heq & _); by rewrite Heq);
    try (left; by rewrite Hframe); try (left; reflexivity).
  - apply (auth_frame (λ w w', clients w' = clients w
                               ∨ ∃ c, clients w' = clients w ++ [c]));
      [by left|].
    intros _. unfold post_clients, Client.save. eff.
    destruct (Client.create _ _ _) as [c|]; [|by left].
    destruct (field "_id" (body r)); simpl; try (right; by exists c);
      destruct (existsb _ _); simpl; try (by left); right; by exists c.
  - left. apply Hframe.
Qed.

Lemma handle_one_collection e r w :
  admins (handle e r w).2 = admins w ∨ clients (handle e r w).2 = clients w.
Proof.
  pose proof (handle_writes e r w) as Hframe. unfold handle in *.
  destruct (route r); simpl in Hframe;
    try (right; by rewrite Hframe); try (right; reflexivity);
    try (left; apply Hframe); right; apply Hframe.
Qed.

(** X14: no route removes or rewrites an account or a portfolio entry: the
    accounts and the portfolio after a request are those before it,
    unchanged and in place, followed by what the request added, and a
    request adds at most one document to the two of them together. *)
Theorem accounts_and_portfolio_grow e r w :
  ∃ new_admins new_clients,
    admins (handle e r w).2 = admins w ++ new_admins
    ∧ clients (handle e r w).2 = clients w ++ new_clients
    ∧ (length new_admins + length new_clients ≤ 1)%nat.
Proof.
  destruct (handle_admins e r w) as [Ha | (u & p & _ & _ & _ & Ha)];
    destruct (handle_clients e r w) as [Hc | [c Hc]].
  - exists [], []. rewrite Ha, Hc, !app_nil_r. simpl. auto.
  - exists [], [c]. rewrite Ha, Hc, !app_nil_r. simpl. auto.
  - eexists [_], []. rewrite Ha, Hc, !app_nil_r. simpl. auto.
  - destruct (handle_one_collection e r w) as [Heq | Heq].
    + rewrite Heq in Ha. apply (f_equal length) in Ha.
      rewrite length_app in Ha. simpl in Ha. lia.
    + rewrite Heq in Hc. apply (f_equal length) in Hc.
      rewrite length_app in Hc. simpl in Hc. lia.
Qed.

Lemma find_app_some {A} (p : A → bool) l k x :
  find p l = Some x → find p (l ++ k) = Some x.
Proof.
  induction l as [|y l IH]; simpl; [done|]. by destruct (p y).
Qed.

(** X3: a request that passes the auth middleware keeps passing it, as the
    same account, after any other request has been served (the clock
    standing still): no route can revoke an account or a token. *)
Theorem auth_stable e r w a e' r' :
  authenticate e r w = (Some a, w) →
  let w' := (handle e' r' w).2 in
  authenticate e r w' = (Some a, w').
Proof.
  intros Hauth w'.
  apply authenticate_success in Hauth
    as (token & id & oid & Hb & Hfull & Hver & Hcast & Hfind).
  apply authenticate_success. exists token, id, oid.
  repeat (split; [done|]).
  unfold w'.
  destruct (handle_admins e' r' w) as [-> | (u & p & _ & _ & _ & ->)];
    [done | by apply find_app_some].
Qed.

End Coverage.

(** ** The handlers at work on the stand-in platform *)

#[local] Existing Instance Reference.runtime.
#[local] Existing Instance Reference.platform.

Lemma reference_world_reachable : reachable Reference.world.
Proof.
  change Reference.world
    with (handle Reference.boot Reference.register_root empty_world).2.
  apply reachable_handle, reachable_empty.
Qed.

Lemma length_append (s t : string) :
  String.length (s +:+ t) = String.length s + String.length t.
Proof. induction s as [|c s IH]; simpl; [done|]. by rewrite IH. Qed.

Lemma reference_hash_not_identity p s : Reference.hash p s ≠ p.
Proof.
  intros Heq. apply (f_equal String.length) in Heq.
  unfold Reference.hash in Heq. simpl in Heq.
  rewrite !length_append in Heq. simpl in Heq. lia.
Qed.

Lemma auth_failure_uniform_witness :
  handle Reference.env Reference.list_anonymous Reference.world
  = ({| status := 401; json := Msg false "Please authenticate" |},
     Reference.world).
Proof.
  apply auth_failure_uniform; [reflexivity|].
  apply no_token. by left.
Defined.


Lemma contact_submission_witness :
  (∃ w',
     handle Reference.env Reference.submit Reference.world
     = ({| status := 201;
           json := Msg true "Thank you! We will contact you soon." |}, w')
     ∧ contacts w' =
         [{| Contact._id := new_ObjectId Reference.env;
             Contact.name := "X";
             Contact.email := "x@x.com";
             Contact.phone := None;
             Contact.service := None;
             Contact.message := Some "hi";
             Contact.date := now Reference.env;
             Contact.status := Some "new" |}]
     ∧ clients w' = clients Reference.world
     ∧ admins w' = admins Reference.world)
  ∧ handle Reference.env Reference.submit_no_name Reference.world
    = ({| status := 400;
          json := Msg false "Name, email and message are required" |},
       Reference.world).
Proof.
  split.
  - apply (proj1 (contact_submission Reference.env Reference.submit
                    Reference.world eq_refl) "X" "x@x.com" "hi");
      first [reflexivity | discriminate].
  - apply (proj2 (contact_submission Reference.env Reference.submit_no_name
                    Reference.world eq_refl) "name");
      [left | left; reflexivity].
Defined.


Lemma notification_failure_swallowed_witness :
  let delivered :=
    handle (with_sendMail true Reference.env) Reference.submit
      Reference.world in
  let failed :=
    handle (with_sendMail false Reference.env) Reference.submit
      Reference.world in
  failed.1 = delivered.1
  ∧ failed.1 = {| status := 201;
                  json := Msg true "Thank you! We will contact you soon." |}
  ∧ contacts failed.2 = contacts delivered.2
  ∧ clients failed.2 = clients delivered.2
  ∧ admins failed.2 = admins delivered.2
  ∧ length (contacts failed.2) = S (length (contacts Reference.world)).
Proof.
  apply (notification_failure_swallowed Reference.env Reference.submit
           Reference.world "X" "x@x.com" "hi");
    first [reflexivity | discriminate].
Defined.

Lemma missing_inquiry_id_witness :
  handle Reference.env Reference.update_absent Reference.inbox
  = ({| status := 200; json := WithData true (ContactDoc None) |},
     Reference.inbox)
  ∧ handle Reference.env Reference.delete_absent Reference.inbox
    = ({| status := 200; json := Msg true "Contact deleted" |},
       Reference.inbox)
  ∧ handle Reference.env Reference.delete_abc Reference.inbox
    = ({| status := 500; json := Msg false "Server error" |},
       Reference.inbox).
Proof.
  assert (∀ c, c ∈ contacts Reference.inbox →
               Contact._id c ≠ Reference.absent_id) as Habsent.
  { intros c Hc. repeat (apply elem_of_cons in Hc as [-> | Hc]);
      [discriminate.. | by apply elem_of_nil in Hc]. }
  destruct (missing_inquiry_id Reference.env Reference.update_absent
              Reference.inbox Reference.root Reference.absent_id)
    as [Hupdate _]; [reflexivity|].
  destruct (missing_inquiry_id Reference.env Reference.delete_absent
              Reference.inbox Reference.root Reference.absent_id)
    as [Hdelete _]; [reflexivity|].
  destruct (missing_inquiry_id Reference.env Reference.delete_abc
              Reference.inbox Reference.root "abc")
    as [_ Hmalformed]; [reflexivity|].
  split; [|split].
  - by apply (Hupdate Reference.absent_id).
  - by apply (Hdelete Reference.absent_id).
  - apply Hmalformed; [reflexivity | by right].
Defined.

Lemma contacts_newest_first_witness :
  ∃ l,
    handle Reference.env Reference.list_contacts Reference.inbox
    = ({| status := 200; json := WithData true (ContactList l) |},
       Reference.inbox)
    ∧ l ≡ₚ contacts Reference.inbox
    ∧ StronglySorted (λ x y, (Contact.date y ≤ Contact.date x)%Z) l
    ∧ ∀ stored,
        stored ≡ₚ contacts Reference.inbox →
        Contact.date <$> Contact.find_sorted stored = Contact.date <$> l.
Proof.
  apply (contacts_newest_first Reference.env Reference.list_contacts
           Reference.inbox Reference.root); reflexivity.
Defined.


Lemma password_hash_confined_witness :
  (∃ p s,
     Admin.password Reference.root = bcrypt_hash p s
     ∧ Admin.password Reference.root ≠ p)
  ∧ (handle Reference.env Reference.list_contacts Reference.world).1
    = (handle Reference.env Reference.list_contacts
         (set_admins
            [{| Admin._id := Reference.root_id;
                Admin.username := "root";
                Admin.password := "another hash" |}]
            Reference.world)).1.
Proof.
  destruct (@password_hash_confined Reference.runtime Reference.platform
              reference_hash_not_identity)
    as [Hstored Hanswer].
  split.
  - apply (Hstored Reference.world Reference.root);
      [apply reference_world_reachable | left].
  - apply Hanswer; [|discriminate].
    repeat split. by repeat constructor.
Defined.

Lemma register_without_password_witness :
  (handle Reference.env Reference.register_bob_no_password
     Reference.world).2 = Reference.world
  ∧ (handle Reference.env Reference.register_bob_no_password
       Reference.world).1
    = {| status := 500; json := Msg false "Server error" |}
  ∧ (handle Reference.env Reference.register_root_no_password
       Reference.world).1
    = {| status := 400; json := Msg false "Admin already exists" |}.
Proof.
  destruct (register_without_password Reference.env
              Reference.register_bob_no_password Reference.world)
    as (Hworld & _ & Hfresh & _); [reflexivity | discriminate |].
  destruct (register_without_password Reference.env
              Reference.register_root_no_password Reference.world)
    as (_ & _ & _ & Hconflict); [reflexivity | discriminate |].
  split; [done|]. split.
  - apply (Hfresh "bob"); [reflexivity|]. intros a Ha.
    apply list_elem_of_singleton in Ha as ->. discriminate.
  - apply Hconflict. by eexists.
Defined.

(** C6, as stated, fails: the id [abc] matches no stored Inquiry, and the
    delete of it by an authenticated admin is answered HTTP 500 with
    [success: false]. *)
Lemma malformed_id_is_server_error :
  ¬ (∀ (e : Env) (r : Request) (w : World) a id,
       route r = PUT_contact id ∨ route r = DELETE_contact id →
       authenticate e r w = (Some a, w) →
       (∀ c, c ∈ contacts w → castObjectId (JStr id) ≠ Some (Contact._id c)) →
       succeeded (handle e r w).1 = true ∧ (handle e r w).2 = w).
Proof.
  intros Hclaim.
  destruct (Hclaim Reference.env Reference.delete_abc Reference.world
              Reference.root "abc") as [Hsuccess _].
  - by right.
  - reflexivity.
  - intros c Hc. by apply elem_of_nil in Hc.
  - vm_compute in Hsuccess. discriminate.
Qed.


(** C10, as stated, fails: a registration without a password under the name
    of a stored account is answered HTTP 400, not HTTP 500. *)
Lemma taken_username_without_password_is_conflict :
  ¬ (∀ (e : Env) (r : Request) (w : World),
       route r = POST_admin_register →
       (∀ s, field "password" (body r) ≠ JStr s) →
       (handle e r w).1 = {| status := 500; json := Msg false "Server error" |}
       ∧ admins (handle e r w).2 = admins w).
Proof.
  intros Hclaim.
  destruct (Hclaim Reference.env Reference.register_root_no_password
              Reference.world) as [Hstatus _];
    [reflexivity | discriminate |].
  vm_compute in Hstatus. discriminate.
Qed.


(** The walk through the API: register, log in, list (empty), submit, list
    (one inquiry with status "new"). *)
Example end_to_end :
  (serve
     [(Reference.boot, Reference.register_root);
      (Reference.env, Reference.login_root);
      (Reference.env, Reference.list_contacts);
      (Reference.env, Reference.submit);
      (Reference.env, Reference.list_contacts)]
     empty_world).1
  = [{| status := 201; json := Msg true "Admin created successfully" |};
     {| status := 200;
        json := WithToken true "jwt.0123456789abcdef01234567"
                  "Login successful" |};
     {| status := 200; json := WithData true (ContactList []) |};
     {| status := 201;
        json := Msg true "Thank you! We will contact you soon." |};
     {| status := 200;
        json := WithData true
                  (ContactList
                     [{| Contact._id := "65a000000000000000000001";
                         Contact.name := "X";
                         Contact.email := "x@x.com";
                         Contact.phone := None;
                         Contact.service := None;
                         Contact.message := Some "hi";
                         Contact.date := 1700000001000;
                         Contact.status := Some "new" |}]) |}].
Proof. vm_compute. reflexivity. Qed.

(** [replace] takes out the first occurrence only. *)
Example bearer_prefix_removed_once :
  String_replace "Bearer " "" "Bearer Bearer x" = "Bearer x"
  ∧ String_replace "Bearer " "" "Basic abc" = "Basic abc"
  ∧ String_replace "Bearer " "" "Bearer " = "".
Proof. repeat split. Qed.

(** A listing puts the newer inquiry first. *)
Example inbox_listing :
  Contact.date <$> Contact.find_sorted (contacts Reference.inbox)
  = [1700000000200; 1700000000100]%Z.
Proof. reflexivity. Qed.

(** *** The further properties at work *)



Lemma clients_listing_public_witness :
  ∃ l,
    handle Reference.env Reference.list_clients Reference.portfolio
    = ({| status := 200; json := WithData true (ClientList l) |},
       Reference.portfolio)
    ∧ l ≡ₚ clients Reference.portfolio
    ∧ StronglySorted (λ x y, Client.date_leb y x = true) l.
Proof.
  apply (clients_listing_public Reference.env Reference.list_clients
           Reference.portfolio).
  reflexivity.
Defined.

Lemma portfolio_creation_rejected_witness :
  handle Reference.env Reference.create_client_bad_rating Reference.world
  = ({| status := 500; json := Msg false "Server error" |}, Reference.world).
Proof.
  apply (portfolio_creation_rejected Reference.env
           Reference.create_client_bad_rating Reference.world
           Reference.root); [reflexivity | reflexivity |].
  left. reflexivity.
Defined.

Lemma login_without_password_witness :
  handle Reference.env Reference.login_root_no_password Reference.world
  = ({| status := 500; json := Msg false "Server error" |}, Reference.world)
  ∧ handle Reference.env Reference.login_bob_no_password Reference.world
    = ({| status := 401; json := Msg false "Invalid credentials" |},
       Reference.world).
Proof.
  destruct (login_without_password Reference.env
              Reference.login_root_no_password Reference.world)
    as [Hknown _]; [reflexivity | discriminate |].
  destruct (login_without_password Reference.env
              Reference.login_bob_no_password Reference.world)
    as [_ Hunknown]; [reflexivity | discriminate |].
  split; [apply Hknown; by eexists | by apply Hunknown].
Defined.

Lemma notification_outcome_witness :
  outbox (handle Reference.env Reference.submit Reference.world).2
  = [{| mail_name := "X"; mail_email := "x@x.com";
        mail_phone := "Not provided"; mail_service := "Not specified";
        mail_message := "hi" |}]
  ∧ console (handle Reference.env Reference.submit Reference.world).2 = []
  ∧ outbox (handle Reference.later Reference.submit Reference.world).2 = []
  ∧ console (handle Reference.later Reference.submit Reference.world).2
    = ["Email notification failed:"].
Proof.
  pose proof (notification_outcome Reference.env Reference.submit
                Reference.world "X" "x@x.com" "hi") as Hsent.
  pose proof (notification_outcome Reference.later Reference.submit
                Reference.world "X" "x@x.com" "hi") as Hfailed.
  destruct Hsent as [? ?]; try first [reflexivity | discriminate].
  destruct Hfailed as [? ?]; try first [reflexivity | discriminate].
  done.
Defined.

Lemma reachable_documents_witness :
  Forall (λ c, Contact.name c ≠ "" ∧ Contact.email c ≠ ""
               ∧ is_Some (Contact.message c)) (contacts Reference.world)
  ∧ Forall (λ a, Admin.username a ≠ "" ∧ Admin.password a ≠ "")
      (admins Reference.world).
Proof. apply reachable_documents, reference_world_reachable. Defined.

Lemma register_empty_username_witness :
  handle Reference.env Reference.register_nameless Reference.world
  = ({| status := 500; json := Msg false "Server error" |}, Reference.world).
Proof.
  apply register_empty_username;
    [apply reference_world_reachable | reflexivity | reflexivity].
Defined.

Lemma register_login_authenticate_witness :
  let w1 :=
    (handle Reference.env Reference.register_alice Reference.world).2 in
  let token := jwt_sign (new_ObjectId Reference.env) (now Reference.later) in
  handle Reference.later Reference.login_alice w1
  = ({| status := 200; json := WithToken true token "Login successful" |},
     w1)
  ∧ ∃ a, Admin._id a = new_ObjectId Reference.env ∧ a ∈ admins w1
         ∧ authenticate Reference.later Reference.list_as_alice w1
           = (Some a, w1).
Proof.
  destruct (register_login_authenticate Reference.env Reference.later
              Reference.later Reference.register_alice
              Reference.login_alice Reference.list_as_alice
              Reference.world "alice" "wonderland")
    as [Hlogin Hauth]; try first [reflexivity | discriminate].
  { intros a Ha. apply list_elem_of_singleton in Ha as ->. discriminate. }
  split; [exact Hlogin|].
  apply (Hauth "65a000000000000000000001");
    first [reflexivity | discriminate].
Defined.

Lemma submission_then_listing_witness :
  let w' := (handle Reference.later Reference.submit Reference.inbox).2 in
  let new :=
    {| Contact._id := new_ObjectId Reference.later;
       Contact.name := "X";
       Contact.email := "x@x.com";
       Contact.phone := None;
       Contact.service := None;
       Contact.message := Some "hi";
       Contact.date := now Reference.later;
       Contact.status := Some "new" |} in
  ∃ l,
    handle Reference.env Reference.list_contacts w'
    = ({| status := 200; json := WithData true (ContactList l) |}, w')
    ∧ l ≡ₚ new :: contacts Reference.inbox
    ∧ ((∀ c, c ∈ contacts Reference.inbox →
             (Contact.date c < now Reference.later)%Z) →
       l = new :: Contact.find_sorted (contacts Reference.inbox)).
Proof.
  apply (submission_then_listing Reference.later Reference.env
           Reference.submit Reference.list_contacts Reference.inbox
           Reference.root "X" "x@x.com" "hi");
    first [reflexivity | discriminate].
Defined.

Lemma bare_token_accepted_witness :
  authenticate Reference.env Reference.list_contacts_bare Reference.world
  = authenticate Reference.env Reference.list_contacts Reference.world.
Proof.
  apply (bare_token_accepted Reference.env Reference.list_contacts_bare
           Reference.list_contacts Reference.world
           "jwt.0123456789abcdef01234567"); [|reflexivity..].
  intros a b Heq.
  destruct (String_replace_cases "Bearer " "" "jwt.0123456789abcdef01234567")
    as [(a0 & b0 & Hs & Hrep & _) | [Hno _]]; [|by apply (Hno a b)].
  change (String_replace "Bearer " "" "jwt.0123456789abcdef01234567")
    with "jwt.0123456789abcdef01234567" in Hrep.
  apply (f_equal String.length) in Hrep, Hs.
  rewrite !length_append in Hrep, Hs. simpl in Hrep, Hs. lia.
Defined.

Lemma auth_stable_witness :
  let w' :=
    (handle Reference.later Reference.register_alice Reference.world).2 in
  authenticate Reference.env Reference.list_contacts w'
  = (Some Reference.root, w').
Proof.
  apply (auth_stable Reference.env Reference.list_contacts Reference.world
           Reference.root Reference.later Reference.register_alice).
  reflexivity.
Defined.
